(** * tr.aggregate.ds: aggregation of a space time raster dataset over the
      intervals of a second space time dataset

    Shallow embedding of [main] of
    [temporal/tr.aggregate.ds/tr.aggregate.ds.py].  The temporal database is a
    finite map from (dataset type, qualified id) to dataset rows; [main] is
    written in a small state-and-fatal-error monad over the database and a
    log of the calls that change it. *)

From Stdlib Require Import ZArith Lia Ascii.
From stdpp Require Import gmap strings list sorting pretty.

Local Open Scope string_scope.
Local Open Scope list_scope.
Local Open Scope Z_scope.

(** ** Data model *)

(** The [type] option: [#% options: strds, str3ds, stvds]. *)
Inductive stds_type := strds | str3ds | stvds.

(** [get_temporal_type()] answers "absolute" or "relative". *)
Inductive temporal_type := absolute | relative.

(** [get_map_time()] of a time table: "interval", "point" or "mixed";
    Python [None] is Rocq [None]. *)
Inductive map_time := interval | point | mixed.

(** The [sampling] option: [#% options: start,during,overlap,contain,equal],
    [multiple: yes]. *)
Inductive relation := Start | During | Overlap | Contain | Equal.

#[global] Instance stds_type_eq_dec : EqDecision stds_type.
Proof. solve_decision. Defined.
#[global] Instance temporal_type_eq_dec : EqDecision temporal_type.
Proof. solve_decision. Defined.
#[global] Instance map_time_eq_dec : EqDecision map_time.
Proof. solve_decision. Defined.
#[global] Instance relation_eq_dec : EqDecision relation.
Proof. solve_decision. Defined.

Definition stds_type_code (t : stds_type) : nat :=
  match t with strds => 0%nat | str3ds => 1%nat | stvds => 2%nat end.

Definition stds_type_of_code (n : nat) : option stds_type :=
  match n with
  | O => Some strds
  | S O => Some str3ds
  | S (S O) => Some stvds
  | _ => None
  end.

#[global] Instance stds_type_countable : Countable stds_type.
Proof.
  apply (inj_countable stds_type_code stds_type_of_code).
  intros []; reflexivity.
Defined.

(** A registered map, with the three columns [main] asks for:
    ["id,start_time,end_time"].  [end_time] is absent for a map without an
    interval. *)
Record MapEntry := {
  map_id : string;
  start_time : Z;
  end_time : option Z
}.

#[global] Instance MapEntry_eq_dec : EqDecision MapEntry.
Proof. solve_decision. Defined.

(** The row of a space time dataset in the temporal database. *)
Record Dataset := {
  ds_temporal_type : temporal_type;
  ds_semantic_type : string;
  ds_title : string;
  ds_description : string;
  absolute_map_time : option map_time;
  relative_map_time : option map_time;
  registered_maps : list MapEntry;
  temporal_extent : option (Z * option Z)
}.

Abbreviation DbKey := (stds_type * string)%type.
Abbreviation Catalog := (gmap (stds_type * string) Dataset).

(** A Python dataset object: its type, its id and the row it holds (loaded
    by [select] or filled by [set_initial_values]). *)
Record stds := {
  stds_kind : stds_type;
  stds_id : string;
  stds_row : Dataset
}.

Definition stds_key (o : stds) : DbKey := (stds_kind o, stds_id o).

(** The arguments of one call of [tgis.aggregate_raster_maps], in the
    order of the call. *)
Record AggregationRequest := {
  rq_dataset : stds;
  rq_mapset : string;
  rq_inputs : list string;
  rq_base : string;
  rq_start : Z;
  rq_end : option Z;
  rq_count : Z;
  rq_method : string;
  rq_register_null : bool
}.

(** The command line: [options] and [flags] of [grass.parser()]. *)
Record Options := {
  opt_input : string;
  opt_sample : string;
  opt_type : stds_type;
  opt_output : string;
  opt_method : string;
  opt_sampling : list relation;
  opt_base : string;
  flag_n : bool
}.

(** The calls [main] makes that change the temporal database or the
    connection, in the order they are made. *)
Inductive Event :=
| EvDelete (k : DbKey)
| EvInsert (k : DbKey)
| EvAggregate (rq : AggregationRequest)
| EvUpdate (k : DbKey)
| EvClose.

Record State := {
  db : gmap (stds_type * string) Dataset;
  log : list Event
}.

(** The [grass.fatal] calls of [main], named after the error they report,
    with the value formatted into the message; [AggregationComputeError] is
    the fatal error raised inside the aggregation service, and
    [EmptyAggregationError] the one raised inside the update of an output
    that has no registered map. *)
Inductive fatal_error :=
| NotFoundError (shown : string)
| TemporalTypeMismatchError
| IntervalRequiredError
| AlreadyExistsError (shown : string)
| EmptyDatasetError (shown : string)
| AggregationComputeError
| EmptyAggregationError.

(** The text handed to [grass.fatal].  The texts of the two errors raised
    inside the temporal library are not in this module; theirs stand for
    whatever the library prints. *)
Definition message (e : fatal_error) : string :=
  match e with
  | NotFoundError i => "Dataset <" +:+ i +:+ "> not found in temporal database"
  | TemporalTypeMismatchError =>
      "Input and aggregation dataset must have the same temporal type"
  | IntervalRequiredError =>
      "All registered maps of the aggregation dataset must have time intervals"
  | AlreadyExistsError i =>
      "Space time raster dataset <" +:+ i
        +:+ "> is already in database, use overwrite flag to overwrite"
  | EmptyDatasetError i => "Aggregation dataset <" +:+ i +:+ "> is empty"
  | AggregationComputeError => "Error while aggregation computation"
  | EmptyAggregationError => "No map was registered in the output dataset"
  end.

(** What a caller of [main()] receives. *)
Inductive py_value := PyNone | PyInt (n : Z).

(** ** The monad: state passing with fatal termination *)

Inductive result (A : Type) :=
| Ok (a : A) (s : State)
| Fatal (e : fatal_error) (s : State).
Arguments Ok {A} a s.
Arguments Fatal {A} e s.

Definition M (A : Type) : Type := State → result A.

Definition ret {A} (a : A) : M A := fun s => Ok a s.

Definition bind {A B} (m : M A) (k : A → M B) : M B :=
  fun s => match m s with
           | Ok a s' => k a s'
           | Fatal e s' => Fatal e s'
           end.

Notation "'let*' x ':=' m 'in' k" := (bind m (fun x => k))
  (at level 10, x name, m at level 100, k at level 200).
Notation "m ';;' k" := (bind m (fun _ => k))
  (at level 100, k at level 200, right associativity).

(** [grass.fatal(msg)]: the process ends here. *)
Definition fatal {A} (e : fatal_error) : M A := fun s => Fatal e s.

Definition final_state {A} (r : result A) : State :=
  match r with Ok _ s => s | Fatal _ s => s end.

Definition get_db : M (gmap (stds_type * string) Dataset) :=
  fun s => Ok (db s) s.

Definition emit (e : Event) : M unit :=
  fun s => Ok tt {| db := db s; log := log s ++ [e] |}.

Definition change_db (f : Catalog → Catalog) (e : Event) : M unit :=
  fun s => Ok tt {| db := f (db s); log := log s ++ [e] |}.

(** ** The database calls of [main] *)

(** The dataset objects and the database interface belong to the temporal
    library; their calls are modelled on the finite map.

    [dbif.close()] *)
Definition close : M unit := emit EvClose.

(** Modelled from the spec: [o.is_in_db()] followed, when it answers true,
    by [o.select(dbif)] ([loadSeries(qualifiedId, kind)] of the catalog
    service): the row stored under the object's type and id, if any. *)
Definition select (k : DbKey) : M (option Dataset) :=
  let* c := get_db in ret (c !! k).

(** Modelled from the spec: [o.is_in_db(dbif)] ([exists(qualifiedId, kind)]
    of the catalog service). *)
Definition is_in_db (k : DbKey) : M bool :=
  let* c := get_db in ret (bool_decide (is_Some (c !! k))).

(** Modelled from the spec: [o.delete(dbif)] ([deleteSeries] of the catalog
    service): the row, and with it the maps registered in it, is gone. *)
Definition delete_stds (k : DbKey) : M unit :=
  change_db (delete k) (EvDelete k).

(** Modelled from the spec: [o.insert(dbif)] ([insertSeries] of the catalog
    service): the row of the object is stored under its type and id. *)
Definition insert_stds (o : stds) : M unit :=
  change_db (<[stds_key o := stds_row o]>) (EvInsert (stds_key o)).

(** Modelled from the spec: [sp.get_initial_values()]: temporal type,
    semantic type, title and description of the loaded row. *)
Definition get_initial_values (d : Dataset)
  : temporal_type * string * string * string :=
  (ds_temporal_type d, ds_semantic_type d, ds_title d, ds_description d).

(** Modelled from the spec: [new_sp.set_initial_values(temporal_type,
    semantic_type, title, description)] on a dataset object that was just
    constructed: a row with these four values, no time table entry, no map
    and no extent. *)
Definition set_initial_values (k : DbKey) (tt : temporal_type)
    (sem title descr : string) : stds :=
  {| stds_kind := k.1; stds_id := k.2;
     stds_row := {| ds_temporal_type := tt; ds_semantic_type := sem;
                    ds_title := title; ds_description := descr;
                    absolute_map_time := None; relative_map_time := None;
                    registered_maps := []; temporal_extent := None |} |}.

(** Order of rows under [ORDER BY start_time]. *)
Definition start_le (a b : MapEntry) : Prop := start_time a ≤ start_time b.

(** Rows are put in order by insertion; a row goes before the first row
    that does not start earlier, so rows with the same start keep the order
    in which they are stored. *)
Fixpoint insert_row (x : MapEntry) (l : list MapEntry) : list MapEntry :=
  match l with
  | [] => [x]
  | y :: l' =>
      if start_time x <=? start_time y then x :: l else y :: insert_row x l'
  end.

Definition order_by_start (l : list MapEntry) : list MapEntry :=
  foldr insert_row [] l.

(** The maps registered in the dataset stored under [k]; none when
    nothing is stored there. *)
Definition stored_maps (c : gmap (stds_type * string) Dataset) (k : DbKey)
  : list MapEntry :=
  match c !! k with
  | Some d => registered_maps d
  | None => []
  end.

(** Modelled from the spec: [get_registered_maps] of the temporal library
    ([listMembers(seriesId, orderBy)] of the catalog service), called with
    columns ["id,start_time,end_time"], no where clause and order
    ["start_time"]: the registered maps of the dataset stored under the
    object's type and id, by ascending start time; no row when the dataset
    is not stored. *)
Definition get_registered_maps (k : DbKey) : M (list MapEntry) :=
  let* c := get_db in ret (order_by_start (stored_maps c k)).

(** Bounds of a list of maps: least start, greatest end that is present. *)
Definition extent_add (m : MapEntry) (acc : option (Z * option Z))
  : option (Z * option Z) :=
  match acc with
  | None => Some (start_time m, end_time m)
  | Some (lo, hi) =>
      Some (Z.min lo (start_time m),
            match hi, end_time m with
            | Some h, Some e => Some (Z.max h e)
            | Some h, None => Some h
            | None, e => e
            end)
  end.

Definition extent_of (maps : list MapEntry) : option (Z * option Z) :=
  foldr extent_add None maps.

Definition with_extent (d : Dataset) : Dataset :=
  {| ds_temporal_type := ds_temporal_type d;
     ds_semantic_type := ds_semantic_type d;
     ds_title := ds_title d; ds_description := ds_description d;
     absolute_map_time := absolute_map_time d;
     relative_map_time := relative_map_time d;
     registered_maps := registered_maps d;
     temporal_extent := extent_of (registered_maps d) |}.

(** Modelled from the spec: [update_from_registered_maps] of the temporal
    library ([finalize] / [recomputeExtent] of the spec): the extent of the
    stored dataset is recomputed from the maps registered in it.  A
    dataset with zero members fails the computation of the extent, which
    is surfaced as [EmptyAggregationError]: the process ends inside the
    call, with the database as it was. *)
Definition update_from_registered_maps (k : DbKey) : M unit :=
  fun s =>
    match stored_maps (db s) k with
    | [] => Fatal EmptyAggregationError
              {| db := db s; log := log s ++ [EvUpdate k] |}
    | _ :: _ => Ok tt {| db := alter with_extent k (db s);
                         log := log s ++ [EvUpdate k] |}
    end.

(** Lines 146-149: [absolute_time.get_map_time()] when the temporal type is
    "absolute", [relative_time.get_map_time()] otherwise. *)
Definition time_table_map_time (d : Dataset) : option map_time :=
  if bool_decide (ds_temporal_type d = absolute)
  then absolute_map_time d
  else relative_map_time d.

(** ** Option handling *)

(** Python [s.find(c)] for a one-character [c]: the first index of [c] in
    [s], or [-1]. *)
Fixpoint find_from (s : string) (c : Ascii.ascii) (i : Z) : Z :=
  match s with
  | EmptyString => -1
  | String a s' => if Ascii.eqb a c then i else find_from s' c (i + 1)
  end.

Definition find (s : string) (c : Ascii.ascii) : Z := find_from s c 0.

(** [if name.find("@") >= 0: id = name else: id = name + "@" + mapset] *)
Definition qualified (name mapset : string) : string :=
  if 0 <=? find name "@"%char then name else name +:+ "@" +:+ mapset.

(** Python truth of the value of [collect_map_names]: [None] and the empty
    list are false. *)
Definition truthy (names : option (list string)) : bool :=
  match names with
  | Some (_ :: _) => true
  | _ => false
  end.

Definition names_of (names : option (list string)) : list string :=
  match names with Some l => l | None => [] end.

(** Line 189: the arguments [(new_sp, mapset, input_map_names, base, start,
    end, count, method, register_null)] for [row], where [start] and [end]
    are [row["start_time"]] and [row["end_time"]] and [i] is the value of
    [count]. *)
Definition request_for (o : Options) (mapset : string) (new_sp : stds)
    (names : option (list string)) (i : Z) (row : MapEntry)
  : AggregationRequest :=
  {| rq_dataset := new_sp; rq_mapset := mapset;
     rq_inputs := names_of names; rq_base := opt_base o;
     rq_start := start_time row; rq_end := end_time row;
     rq_count := i; rq_method := opt_method o;
     rq_register_null := flag_n o |}.

(** ** [main] *)

Section Main.

(** The two services of the temporal library that [main] drives;
    [main] passes them the dataset objects and the open database.
    [collect_map_names] answers a list of map names or [None];
    [aggregate_raster_maps] answers the database it leaves behind, or
    [None] when it ends the process with a fatal error. *)
Variable collect_map_names :
  stds → gmap (stds_type * string) Dataset → Z → option Z →
  list relation → option (list string).
Variable aggregate_raster_maps :
  AggregationRequest → gmap (stds_type * string) Dataset →
  option (gmap (stds_type * string) Dataset).

(** Line 186: [tgis.collect_map_names(sp, dbif, start, end, sampling)]. *)
Definition call_collect_map_names (sp : stds) (start : Z)
    (end_ : option Z) (sampling : list relation)
  : M (option (list string)) :=
  let* c := get_db in ret (collect_map_names sp c start end_ sampling).

(** Line 189: [tgis.aggregate_raster_maps(new_sp, mapset, input_map_names,
    base, start, end, count, method, register_null, dbif)]. *)
Definition call_aggregate_raster_maps (rq : AggregationRequest) : M unit :=
  fun s =>
    let submitted := log s ++ [EvAggregate rq] in
    match aggregate_raster_maps rq (db s) with
    | Some c' => Ok tt {| db := c'; log := submitted |}
    | None => Fatal AggregationComputeError {| db := db s; log := submitted |}
    end.

(** Lines 115-139: resolve and load the input and the sampler. *)
Definition load_datasets (o : Options) (mapset : string)
  : M (stds * stds) :=
  let input := opt_input o in
  let sampler := opt_sample o in
  let type := opt_type o in
  let id := qualified input mapset in
  let* found := select (strds, id) in
  match found with
  | None => close ;; fatal (NotFoundError id)
  | Some sp_row =>
      let sp := {| stds_kind := strds; stds_id := id;
                   stds_row := sp_row |} in
      let sampler_id := qualified sampler mapset in
      let* found := select (type, sampler_id) in
      match found with
      | None => close ;; fatal (NotFoundError id)
      | Some sampler_row =>
          ret (sp, {| stds_kind := type; stds_id := sampler_id;
                      stds_row := sampler_row |})
      end
  end.

(** Lines 141-153: same temporal type, and intervals on the sampler. *)
Definition check_compatibility (sp sampler_sp : stds) : M unit :=
  if bool_decide (ds_temporal_type (stds_row sampler_sp)
                  ≠ ds_temporal_type (stds_row sp))
  then close ;; fatal TemporalTypeMismatchError
  else
    let map_time := time_table_map_time (stds_row sampler_sp) in
    if bool_decide (map_time ≠ Some interval)
    then close ;; fatal IntervalRequiredError
    else ret tt.

(** Lines 155-172: the new space time raster dataset. *)
Definition prepare_output (o : Options) (overwrite : bool)
    (mapset : string) (sp : stds) : M stds :=
  let output := opt_output o in
  let out_id := qualified output mapset in
  let* present := is_in_db (strds, out_id) in
  (if present
   then if overwrite
        then delete_stds (strds, out_id)
        else close ;; fatal (AlreadyExistsError out_id)
   else ret tt) ;;
  let '(temporal_type, semantic_type, title, description) :=
    get_initial_values (stds_row sp) in
  let new_sp :=
    set_initial_values (strds, out_id)
      temporal_type semantic_type title description in
  insert_stds new_sp ;;
  ret new_sp.

(** Lines 182-189: the body of [for row in rows]; it answers the new
    value of [count]. *)
Definition loop_body (o : Options) (mapset : string) (sp new_sp : stds)
    (count : Z) (row : MapEntry) : M Z :=
  let count := count + 1 in
  let start := start_time row in
  let end_ := end_time row in
  let* input_map_names :=
    call_collect_map_names sp start end_ (opt_sampling o) in
  (if truthy input_map_names
   then call_aggregate_raster_maps
          (request_for o mapset new_sp input_map_names count row)
   else ret tt) ;;
  ret count.

(** Lines 181-189: [for row in rows], from a given value of [count]. *)
Fixpoint for_rows (o : Options) (mapset : string) (sp new_sp : stds)
    (rows : list MapEntry) (count : Z) : M Z :=
  match rows with
  | [] => ret count
  | row :: rest =>
      let* count := loop_body o mapset sp new_sp count row in
      for_rows o mapset sp new_sp rest count
  end.

(** Lines 174-189: the rows of the sampler, the emptiness check and the
    loop from [count = 0]. *)
Definition aggregate_intervals (o : Options) (mapset : string)
    (sp sampler_sp new_sp : stds) : M Z :=
  let* rows := get_registered_maps (stds_key sampler_sp) in
  (if bool_decide (rows = [])
   then close ;; fatal (EmptyDatasetError (stds_id sp))
   else ret tt) ;;
  let count := 0 in
  for_rows o mapset sp new_sp rows count.

(** [main()], lines 95-195.  [overwrite] is [grass.overwrite()] and
    [mapset] is [grass.gisenv()["MAPSET"]]. *)
Definition main (o : Options) (overwrite : bool) (mapset : string)
  : M py_value :=
  let* loaded := load_datasets o mapset in
  let '(sp, sampler_sp) := loaded in
  check_compatibility sp sampler_sp ;;
  let* new_sp := prepare_output o overwrite mapset sp in
  let* count := aggregate_intervals o mapset sp sampler_sp new_sp in
  update_from_registered_maps (stds_key new_sp) ;;
  close ;;
  ret PyNone.

(** The loop as the scheduler of the spec words it: one interval at a
    time, each carrying the sequence index it was given by the
    enumeration. *)
Definition process_interval (o : Options) (mapset : string)
    (sp new_sp : stds) (iv : Z * MapEntry) : M unit :=
  let '(i, row) := iv in
  let* ids :=
    call_collect_map_names sp (start_time row) (end_time row)
      (opt_sampling o) in
  if truthy ids
  then call_aggregate_raster_maps (request_for o mapset new_sp ids i row)
  else ret tt.

Fixpoint run_intervals (o : Options) (mapset : string)
    (sp new_sp : stds) (ivs : list (Z * MapEntry)) : M unit :=
  match ivs with
  | [] => ret tt
  | iv :: rest =>
      process_interval o mapset sp new_sp iv ;;
      run_intervals o mapset sp new_sp rest
  end.

End Main.

(** ** Intervals and logs *)

(** The rows paired with consecutive sequence indices from [k] on. *)
Fixpoint enumerate_from (k : Z) (rows : list MapEntry)
  : list (Z * MapEntry) :=
  match rows with
  | [] => []
  | row :: rest => (k, row) :: enumerate_from (k + 1) rest
  end.

(** The intervals of the interval enumerator: indices begin at 1. *)
Definition intervals (rows : list MapEntry) : list (Z * MapEntry) :=
  enumerate_from 1 rows.

Definition is_update (e : Event) : bool :=
  match e with EvUpdate _ => true | _ => false end.

Definition is_aggregate (e : Event) : bool :=
  match e with EvAggregate _ => true | _ => false end.

(** How often the log records [update_from_registered_maps]. *)
Definition finalizations (l : list Event) : nat :=
  length (List.filter is_update l).


(** The row [main] inserts for the output: the four initial values of the
    source and nothing else. *)
Definition fresh_output (o : Options) (mapset : string) (sp_row : Dataset)
  : stds :=
  set_initial_values (strds, qualified (opt_output o) mapset)
    (ds_temporal_type sp_row) (ds_semantic_type sp_row)
    (ds_title sp_row) (ds_description sp_row).

(** The state after further calls were logged. *)
Definition logged (l : list Event) (s : State) : State :=
  {| db := db s; log := log s ++ l |}.

(** The dataset objects [main] builds for the input and the sampler once
    their rows are loaded. *)
Definition input_object (o : Options) (mapset : string) (row : Dataset)
  : stds :=
  {| stds_kind := strds; stds_id := qualified (opt_input o) mapset;
     stds_row := row |}.

Definition sampler_object (o : Options) (mapset : string) (row : Dataset)
  : stds :=
  {| stds_kind := opt_type o; stds_id := qualified (opt_sample o) mapset;
     stds_row := row |}.

(** The key under which [main] stores the output. *)
Definition output_key (o : Options) (mapset : string) : DbKey :=
  (strds, qualified (opt_output o) mapset).



(** [s'] has the log of [s] followed by events that all satisfy [P]. *)
Definition log_extends (P : Event → Prop) (s s' : State) : Prop :=
  ∃ l, log s' = log s ++ l ∧ Forall P l.

(** Whatever the state, [m] adds only events that satisfy [P]. *)
Definition only_logs {A} (P : Event → Prop) (m : M A) : Prop :=
  ∀ s, log_extends P s (final_state (m s)).

(** ** The services, from their contracts *)

(** Modelled from the spec: the relation predicates of the temporal
    relation matcher ([collect_map_names] of the temporal library, which is
    not part of this module).  [a] and [b] are the start and the end of the
    source map, [b] absent for a map without end; [s] and [e] bound the
    interval. *)
Definition satisfies (r : relation) (a : Z) (b : option Z) (s e : Z) : bool :=
  match r with
  | Equal => (a =? s) && from_option (λ b, b =? e) false b
  | Start => a =? s
  | During => (s <=? a) && from_option (λ b, b <=? e) false b
  | Overlap => (a <? e) && from_option (λ b, s <? b) true b
  | Contain => (a <=? s) && from_option (λ b, e <=? b) false b
  end.

(** A source map is taken when it satisfies one of the selected
    relations. *)
Definition selected (relation_set : list relation) (s e : Z) (m : MapEntry)
  : bool :=
  existsb (λ r, satisfies r (start_time m) (end_time m) s e) relation_set.

(** Modelled from the spec: [match(sourceSeries, interval, relationSet)]:
    the identifiers of the selected maps, by ascending start time, without
    duplicates. *)
Definition match_maps (maps : list MapEntry) (s e : Z)
    (relation_set : list relation) : list string :=
  remove_dups
    (map_id <$> filter (λ m, selected relation_set s e m = true)
                       (order_by_start maps)).

(** Modelled from the spec: [collect_map_names] as the matcher run on the
    maps registered in the source dataset; an interval has an end (an
    [Interval] is a pair of a start and an end), and an empty result is
    answered as [None]. *)
Definition collect_map_names_spec (sp : stds)
    (c : gmap (stds_type * string) Dataset) (start : Z) (end_ : option Z)
    (sampling : list relation) : option (list string) :=
  match c !! stds_key sp, end_ with
  | Some d, Some e =>
      match match_maps (registered_maps d) start e sampling with
      | [] => None
      | names => Some names
      end
  | _, _ => None
  end.

Definition register_map (m : MapEntry) (d : Dataset) : Dataset :=
  {| ds_temporal_type := ds_temporal_type d;
     ds_semantic_type := ds_semantic_type d;
     ds_title := ds_title d; ds_description := ds_description d;
     absolute_map_time := absolute_map_time d;
     relative_map_time := relative_map_time d;
     registered_maps := registered_maps d ++ [m];
     temporal_extent := temporal_extent d |}.

(** The name of the map computed for sequence index [i]. *)
Definition output_name (base : string) (i : Z) : string :=
  base +:+ "_" +:+ pretty i.

(** Modelled from the spec: the aggregation service
    ([aggregate_raster_maps] of the temporal library).  [r_series] is the
    cell-level reducer, outside this module: it fails ([None]) or computes
    a raster and tells whether it holds only no-data cells.  On success the
    map ["{baseName}_{i}"] is registered in the output dataset with the
    bounds of the interval; a no-data map is dropped unless [registerNull]
    is set; a failure is fatal. *)
Definition aggregate_raster_maps_spec
    (r_series : string → list string → option bool)
    (rq : AggregationRequest) (c : gmap (stds_type * string) Dataset)
  : option (gmap (stds_type * string) Dataset) :=
  match r_series (rq_method rq) (rq_inputs rq) with
  | None => None
  | Some only_null =>
      if only_null && negb (rq_register_null rq) then Some c
      else Some (alter (register_map
                          {| map_id := output_name (rq_base rq) (rq_count rq);
                             start_time := rq_start rq;
                             end_time := rq_end rq |})
                       (stds_key (rq_dataset rq)) c)
  end.

(** [main] over the services as the spec describes them. *)
Definition main_spec (r_series : string → list string → option bool)
  : Options → bool → string → M py_value :=
  main collect_map_names_spec (aggregate_raster_maps_spec r_series).

(** ** Further vocabulary for runs *)

(** The fatal errors [main] raises before it touches the output: lines
    124, 137, 143, 153 and 168. *)
Definition before_output (e : fatal_error) : bool :=
  match e with
  | NotFoundError _ | TemporalTypeMismatchError | IntervalRequiredError
  | AlreadyExistsError _ => true
  | EmptyDatasetError _ | AggregationComputeError
  | EmptyAggregationError => false
  end.

(** The run was ended inside a call of the temporal library: by the
    aggregation service, or by the update of an output without members. *)
Definition ended_in_library {A} (r : result A) : bool :=
  match r with
  | Fatal AggregationComputeError _ | Fatal EmptyAggregationError _ => true
  | _ => false
  end.

Definition is_close (e : Event) : bool :=
  match e with EvClose => true | _ => false end.

(** The sequence indices of the aggregation requests in a log, in the
    order of the log. *)
Definition request_counts (l : list Event) : list Z :=
  omap (λ e, match e with
             | EvAggregate rq => Some (rq_count rq)
             | _ => None
             end) l.

(** ** Sample data *)

Module Sample.

(** A dataset row of temporal type [tt] whose time table says [mt]. *)
Definition dataset (tt : temporal_type) (mt : option map_time)
    (maps : list MapEntry) : Dataset :=
  {| ds_temporal_type := tt; ds_semantic_type := "mean";
     ds_title := "t"; ds_description := "d";
     absolute_map_time := if bool_decide (tt = absolute) then mt else None;
     relative_map_time := if bool_decide (tt = absolute) then None else mt;
     registered_maps := maps;
     temporal_extent := extent_of maps |}.

Definition window (i : string) (s e : Z) : MapEntry :=
  {| map_id := i; start_time := s; end_time := Some e |}.

Definition instant (i : string) (s : Z) : MapEntry :=
  {| map_id := i; start_time := s; end_time := None |}.

(** The source of the end-to-end example: A[0,10), B[10,20), C[20,30). *)
Definition source : Dataset :=
  dataset relative (Some interval)
    [window "A" 0 10; window "B" 10 20; window "C" 20 30].

(** A database with the source under ["src@user"] and a sampler under
    ["smp@user"]. *)
Definition catalog (sampler : Dataset) : gmap (stds_type * string) Dataset :=
  <[(strds, "src@user") := source]> (<[(strds, "smp@user") := sampler]> ∅).

Definition opts (sampling : list relation) : Options :=
  {| opt_input := "src"; opt_sample := "smp"; opt_type := strds;
     opt_output := "out"; opt_method := "sum";
     opt_sampling := sampling; opt_base := "base"; flag_n := false |}.

Definition start_state (c : gmap (stds_type * string) Dataset) : State :=
  {| db := c; log := [] |}.

(** One interval [0,20). *)
Definition one_window : Dataset :=
  dataset relative (Some interval) [window "w1" 0 20].

(** Two intervals, stored out of order; no source map starts in or
    overlaps [40,50). *)
Definition two_windows : Dataset :=
  dataset relative (Some interval) [window "w2" 40 50; window "w1" 0 20].

(** An interval [-50,-40) that no source map matches, then [0,20). *)
Definition gap_then_window : Dataset :=
  dataset relative (Some interval) [window "w0" (-50) (-40); window "w1" 0 20].

(** A sampler without registered maps. *)
Definition no_window : Dataset := dataset relative (Some interval) [].

(** A sampler whose maps have no end. *)
Definition instants : Dataset :=
  dataset relative (Some point) [instant "i1" 0; instant "i2" 10].

(** A sampler in absolute time. *)
Definition absolute_windows : Dataset :=
  dataset absolute (Some interval) [window "w1" 0 20].

(** An output left by an earlier run. *)
Definition earlier_output : Dataset :=
  dataset relative (Some interval) [window "base_1" 0 20].

Definition taken (c : gmap (stds_type * string) Dataset)
  : gmap (stds_type * string) Dataset :=
  <[(strds, "out@user") := earlier_output]> c.

(** A reducer that always computes a raster with data. *)
Definition computes (method : string) (inputs : list string)
  : option bool := Some false.

(** A reducer that always fails. *)
Definition fails (method : string) (inputs : list string)
  : option bool := None.

End Sample.

Module MoreSamples.

Import Sample.

(** Two intervals [0,20) and [20,30): under "overlap" the first takes the
    maps A and B, the second the map C. *)
Definition split_windows : Dataset :=
  dataset relative (Some interval) [window "w1" 0 20; window "w2" 20 30].

(** Intervals that no source map matches. *)
Definition far_windows : Dataset :=
  dataset relative (Some interval)
    [window "w1" 100 110; window "w2" 120 130].

(** A reducer that fails when it is given a single map. *)
Definition fails_on_single (method : string) (inputs : list string)
  : option bool :=
  if bool_decide (length inputs = 1%nat) then None else Some false.

(** The command line with the output named like the input. *)
Definition opts_onto_input : Options :=
  {| opt_input := "src"; opt_sample := "smp"; opt_type := strds;
     opt_output := "src@user"; opt_method := "sum";
     opt_sampling := [Overlap]; opt_base := "base"; flag_n := false |}.

(** The command line with the output named like the sampler. *)
Definition opts_onto_sampler : Options :=
  {| opt_input := "src"; opt_sample := "smp"; opt_type := strds;
     opt_output := "smp"; opt_method := "sum";
     opt_sampling := [Overlap]; opt_base := "base"; flag_n := false |}.

End MoreSamples.

(** ** Properties of the row order *)

Lemma insert_row_perm (x : MapEntry) (l : list MapEntry) :
  insert_row x l ≡ₚ x :: l.
Proof.
  induction l as [|y l IH]; simpl; [done|].
  destruct (start_time x <=? start_time y); [done|].
  rewrite IH. apply Permutation_swap.
Qed.

Lemma order_by_start_perm (l : list MapEntry) : order_by_start l ≡ₚ l.
Proof.
  induction l as [|x l IH]; simpl; [done|].
  rewrite insert_row_perm. by rewrite IH.
Qed.

Lemma insert_row_sorted (x : MapEntry) (l : list MapEntry) :
  StronglySorted start_le l → StronglySorted start_le (insert_row x l).
Proof.
  induction 1 as [|y l Hs IH Hy]; simpl.
  - repeat constructor.
  - destruct (Z.leb_spec (start_time x) (start_time y)) as [Hle|Hgt].
    + constructor; [by constructor|].
      constructor; [exact Hle|].
      eapply Forall_impl; [exact Hy|].
      intros z Hz. unfold start_le in *. lia.
    + constructor; [exact IH|].
      rewrite insert_row_perm. constructor; [|exact Hy].
      unfold start_le. lia.
Qed.

Lemma order_by_start_sorted (l : list MapEntry) :
  StronglySorted start_le (order_by_start l).
Proof.
  induction l as [|x l IH]; simpl; [constructor|].
  by apply insert_row_sorted.
Qed.

(** Rows with the same start keep the order in which they are stored. *)
Example order_by_start_stable :
  map_id <$> order_by_start
    [ {| map_id := "a"; start_time := 5; end_time := Some 6 |};
      {| map_id := "b"; start_time := 1; end_time := Some 2 |};
      {| map_id := "c"; start_time := 5; end_time := None |};
      {| map_id := "d"; start_time := 1; end_time := Some 9 |} ]
  = ["b"; "d"; "a"; "c"].
Proof. reflexivity. Qed.

(** ** Properties of the enumeration *)

Lemma enumerate_from_lookup (rows : list MapEntry) (k : Z) (i : nat) :
  enumerate_from k rows !! i = (λ row, (k + Z.of_nat i, row)) <$> rows !! i.
Proof.
  revert k i. induction rows as [|row rest IH]; intros k i; [done|].
  destruct i as [|i]; simpl.
  - by rewrite Z.add_0_r.
  - rewrite IH. destruct (rest !! i); simpl; [|done].
    do 2 f_equal. lia.
Qed.

(** ** Properties of the loop *)

Section Loop.

Variable collect_map_names :
  stds → gmap (stds_type * string) Dataset → Z → option Z →
  list relation → option (list string).
Variable aggregate_raster_maps :
  AggregationRequest → gmap (stds_type * string) Dataset →
  option (gmap (stds_type * string) Dataset).

Abbreviation loop_body' :=
  (loop_body collect_map_names aggregate_raster_maps).
Abbreviation for_rows' :=
  (for_rows collect_map_names aggregate_raster_maps).
Abbreviation process_interval' :=
  (process_interval collect_map_names aggregate_raster_maps).
Abbreviation run_intervals' :=
  (run_intervals collect_map_names aggregate_raster_maps).
Abbreviation call_aggregate' :=
  (call_aggregate_raster_maps aggregate_raster_maps).

Lemma loop_body_process o mapset sp new_sp count row s :
  loop_body' o mapset sp new_sp count row s
  = (process_interval' o mapset sp new_sp (count + 1, row) ;;
     ret (count + 1)) s.
Proof.
  unfold loop_body, process_interval, bind, call_collect_map_names,
    get_db, ret; simpl.
  by destruct (truthy _).
Qed.

Lemma for_rows_run_intervals o mapset sp new_sp rows count s :
  for_rows' o mapset sp new_sp rows count s
  = (run_intervals' o mapset sp new_sp (enumerate_from (count + 1) rows) ;;
     ret (count + Z.of_nat (length rows))) s.
Proof.
  revert count s. induction rows as [|row rest IH]; intros count s.
  - simpl. unfold bind, ret. by rewrite Z.add_0_r.
  - cbn [for_rows enumerate_from run_intervals length].
    unfold bind at 1. rewrite loop_body_process.
    unfold bind.
    destruct (process_interval' _ _ _ _ _ s) as [[] s1|e s1]; simpl; [|done].
    rewrite IH. unfold bind, ret.
    destruct (run_intervals' _ _ _ _ _ s1); [|done].
    f_equal. lia.
Qed.

Lemma loop_body_skip o mapset sp new_sp count row s :
  truthy (collect_map_names sp (db s) (start_time row) (end_time row)
            (opt_sampling o)) = false →
  loop_body' o mapset sp new_sp count row s = Ok (count + 1) s.
Proof.
  intros H. unfold loop_body, bind, call_collect_map_names, get_db, ret.
  simpl. by rewrite H.
Qed.

Lemma loop_body_submit o mapset sp new_sp count row s :
  truthy (collect_map_names sp (db s) (start_time row) (end_time row)
            (opt_sampling o)) = true →
  loop_body' o mapset sp new_sp count row s
  = (call_aggregate'
       (request_for o mapset new_sp
          (collect_map_names sp (db s) (start_time row) (end_time row)
             (opt_sampling o)) (count + 1) row) ;;
     ret (count + 1)) s.
Proof.
  intros H. unfold loop_body, bind, call_collect_map_names, get_db, ret.
  simpl. by rewrite H.
Qed.

Lemma call_aggregate_log rq s :
  log (final_state (call_aggregate' rq s)) = log s ++ [EvAggregate rq].
Proof.
  unfold call_aggregate_raster_maps.
  by destruct (aggregate_raster_maps rq (db s)).
Qed.

(** The loop adds nothing to the log but aggregation requests. *)
Lemma for_rows_log o mapset sp new_sp rows count s :
  ∃ l, log (final_state (for_rows' o mapset sp new_sp rows count s))
       = log s ++ l
       ∧ Forall (λ e, is_aggregate e = true) l.
Proof.
  revert count s. induction rows as [|row rest IH]; intros count s.
  - exists []. simpl. by rewrite app_nil_r.
  - cbn [for_rows]. unfold bind at 1.
    destruct (truthy (collect_map_names sp (db s) (start_time row)
                        (end_time row) (opt_sampling o))) eqn:Ht.
    + rewrite loop_body_submit by done. unfold bind at 1.
      match goal with |- context [call_aggregate' ?rq s] =>
        pose proof (call_aggregate_log rq s) as Hl;
        destruct (call_aggregate' rq s) as [[] s1|e s1];
        simpl in Hl |- *;
        [ destruct (IH (count + 1) s1) as (l & Hl' & Hall);
          exists (EvAggregate rq :: l)
        | exists [EvAggregate rq] ]
      end.
      * split; [|by constructor].
        rewrite Hl', Hl. by rewrite <- app_assoc.
      * split; [exact Hl|]. by repeat constructor.
    + rewrite loop_body_skip by done. apply IH.
Qed.

(** When the loop completes, [count] has advanced once per row. *)
Lemma for_rows_count o mapset sp new_sp rows count s n s' :
  for_rows' o mapset sp new_sp rows count s = Ok n s' →
  n = count + Z.of_nat (length rows).
Proof.
  rewrite for_rows_run_intervals. unfold bind, ret.
  destruct (run_intervals' _ _ _ _ _ s); [|done]. congruence.
Qed.

End Loop.

(** ** Properties of the phases of [main] *)

Lemma load_datasets_found o mapset s sp_row sampler_row :
  db s !! (strds, qualified (opt_input o) mapset) = Some sp_row →
  db s !! (opt_type o, qualified (opt_sample o) mapset) = Some sampler_row →
  load_datasets o mapset s
  = Ok (input_object o mapset sp_row, sampler_object o mapset sampler_row) s.
Proof.
  intros Hin Hsm. unfold load_datasets, bind, select, get_db, ret; simpl.
  rewrite Hin; simpl. by rewrite Hsm.
Qed.

Lemma load_datasets_no_input o mapset s :
  db s !! (strds, qualified (opt_input o) mapset) = None →
  load_datasets o mapset s
  = Fatal (NotFoundError (qualified (opt_input o) mapset))
      (logged [EvClose] s).
Proof.
  intros Hin. unfold load_datasets, bind, select, get_db, ret; simpl.
  by rewrite Hin.
Qed.

Lemma load_datasets_no_sampler o mapset s sp_row :
  db s !! (strds, qualified (opt_input o) mapset) = Some sp_row →
  db s !! (opt_type o, qualified (opt_sample o) mapset) = None →
  load_datasets o mapset s
  = Fatal (NotFoundError (qualified (opt_input o) mapset))
      (logged [EvClose] s).
Proof.
  intros Hin Hsm. unfold load_datasets, bind, select, get_db, ret; simpl.
  rewrite Hin; simpl. by rewrite Hsm.
Qed.

Lemma check_compatibility_mismatch sp sampler_sp s :
  ds_temporal_type (stds_row sampler_sp) ≠ ds_temporal_type (stds_row sp) →
  check_compatibility sp sampler_sp s
  = Fatal TemporalTypeMismatchError (logged [EvClose] s).
Proof.
  intros H. unfold check_compatibility.
  by rewrite bool_decide_eq_true_2.
Qed.

Lemma check_compatibility_no_interval sp sampler_sp s :
  ds_temporal_type (stds_row sampler_sp) = ds_temporal_type (stds_row sp) →
  time_table_map_time (stds_row sampler_sp) ≠ Some interval →
  check_compatibility sp sampler_sp s
  = Fatal IntervalRequiredError (logged [EvClose] s).
Proof.
  intros Ht Hm. unfold check_compatibility.
  rewrite bool_decide_eq_false_2 by (intros ?; congruence).
  by rewrite bool_decide_eq_true_2.
Qed.

Lemma check_compatibility_passes sp sampler_sp s :
  ds_temporal_type (stds_row sampler_sp) = ds_temporal_type (stds_row sp) →
  time_table_map_time (stds_row sampler_sp) = Some interval →
  check_compatibility sp sampler_sp s = Ok tt s.
Proof.
  intros Ht Hm. unfold check_compatibility.
  rewrite bool_decide_eq_false_2 by (intros ?; congruence).
  by rewrite bool_decide_eq_false_2 by (intros ?; congruence).
Qed.

Lemma prepare_output_absent o overwrite mapset sp s :
  db s !! output_key o mapset = None →
  prepare_output o overwrite mapset sp s
  = Ok (fresh_output o mapset (stds_row sp))
      {| db := <[output_key o mapset :=
                   stds_row (fresh_output o mapset (stds_row sp))]> (db s);
         log := log s ++ [EvInsert (output_key o mapset)] |}.
Proof.
  unfold output_key. intros H.
  unfold prepare_output, bind, is_in_db, get_db, ret; simpl.
  rewrite H. rewrite bool_decide_eq_false_2 by (by intros [? ?]).
  reflexivity.
Qed.

Lemma prepare_output_overwrite o mapset sp s old :
  db s !! output_key o mapset = Some old →
  prepare_output o true mapset sp s
  = Ok (fresh_output o mapset (stds_row sp))
      {| db := <[output_key o mapset :=
                   stds_row (fresh_output o mapset (stds_row sp))]>
                 (delete (output_key o mapset) (db s));
         log := log s ++ [EvDelete (output_key o mapset);
                          EvInsert (output_key o mapset)] |}.
Proof.
  unfold output_key. intros H.
  unfold prepare_output, bind, is_in_db, get_db, ret; simpl.
  rewrite H. rewrite bool_decide_eq_true_2 by eauto.
  unfold delete_stds, insert_stds, change_db; simpl.
  by rewrite <- app_assoc.
Qed.

Lemma prepare_output_refused o mapset sp s old :
  db s !! output_key o mapset = Some old →
  prepare_output o false mapset sp s
  = Fatal (AlreadyExistsError (qualified (opt_output o) mapset))
      (logged [EvClose] s).
Proof.
  unfold output_key. intros H.
  unfold prepare_output, bind, is_in_db, get_db, ret; simpl.
  rewrite H. by rewrite bool_decide_eq_true_2 by eauto.
Qed.

(** In every case the prepared database holds the fresh row under the
    output key and is otherwise the database before. *)
Lemma prepare_output_db o overwrite mapset sp s new_sp s' :
  prepare_output o overwrite mapset sp s = Ok new_sp s' →
  new_sp = fresh_output o mapset (stds_row sp)
  ∧ db s' = <[output_key o mapset := stds_row new_sp]> (db s).
Proof.
  destruct (db s !! output_key o mapset) as [old|] eqn:Hout.
  - destruct overwrite.
    + rewrite (prepare_output_overwrite _ _ _ _ _ Hout).
      intros [= <- <-]. split; [done|]. simpl.
      apply insert_delete_eq.
    + by rewrite (prepare_output_refused _ _ _ _ _ Hout).
  - rewrite (prepare_output_absent _ _ _ _ _ Hout).
    by intros [= <- <-].
Qed.

(** Lines 193-195: the update of the output, the closing of the
    connection and the end of [main], by whether the dataset stored under
    [k] has a registered map. *)
Lemma update_and_close (k : DbKey) (s : State) :
  (update_from_registered_maps k ;; close ;; ret PyNone) s
  = match stored_maps (db s) k with
    | [] => Fatal EmptyAggregationError (logged [EvUpdate k] s)
    | _ :: _ =>
        Ok PyNone {| db := alter with_extent k (db s);
                     log := log s ++ [EvUpdate k; EvClose] |}
    end.
Proof.
  unfold bind, update_from_registered_maps, close, emit, ret, logged.
  destruct (stored_maps (db s) k); [done|].
  cbn. by rewrite <- app_assoc.
Qed.

(** ** Messages *)

Lemma string_app_length (a b : string) :
  String.length (a +:+ b) = (String.length a + String.length b)%nat.
Proof. induction a as [|c a IH]; simpl; [done|]. by rewrite IH. Qed.

Lemma string_app_inj_r (t a b : string) : a +:+ t = b +:+ t → a = b.
Proof.
  revert b. induction a as [|c a IH]; intros [|d b] H; simpl in H.
  - done.
  - apply (f_equal String.length) in H.
    cbn in H. rewrite ?string_app_length in H. cbn in H. lia.
  - apply (f_equal String.length) in H.
    cbn in H. rewrite ?string_app_length in H. cbn in H. lia.
  - injection H as -> H. f_equal. by apply IH.
Qed.

(** The id shown in a message can be read back from it. *)
Lemma message_not_found_inj (a b : string) :
  message (NotFoundError a) = message (NotFoundError b) → a = b.
Proof.
  intros H. cbn in H. injection H as H.
  exact (string_app_inj_r "> not found in temporal database" a b H).
Qed.

Lemma message_empty_inj (a b : string) :
  message (EmptyDatasetError a) = message (EmptyDatasetError b) → a = b.
Proof.
  intros H. cbn in H. injection H as H.
  exact (string_app_inj_r "> is empty" a b H).
Qed.

(** ** Properties of the log *)

Lemma finalizations_app (l1 l2 : list Event) :
  finalizations (l1 ++ l2) = (finalizations l1 + finalizations l2)%nat.
Proof. unfold finalizations. by rewrite List.filter_app, length_app. Qed.

Lemma finalizations_aggregate (l : list Event) :
  Forall (λ e, is_aggregate e = true) l → finalizations l = 0%nat.
Proof.
  induction 1 as [|e l He _ IH]; [done|].
  destruct e; try discriminate. exact IH.
Qed.

Lemma prepare_output_finalizations o overwrite mapset sp s new_sp s' :
  prepare_output o overwrite mapset sp s = Ok new_sp s' →
  finalizations (log s') = finalizations (log s).
Proof.
  destruct (db s !! output_key o mapset) as [old|] eqn:Hout.
  - destruct overwrite.
    + rewrite (prepare_output_overwrite _ _ _ _ _ Hout).
      intros [= <- <-]. simpl. rewrite finalizations_app.
      unfold finalizations at 2. simpl. lia.
    + by rewrite (prepare_output_refused _ _ _ _ _ Hout).
  - rewrite (prepare_output_absent _ _ _ _ _ Hout).
    intros [= <- <-]. simpl. rewrite finalizations_app.
      unfold finalizations at 2. simpl. lia.
Qed.

(** ** Properties of [main] *)

Section Run.

Variable collect_map_names :
  stds → gmap (stds_type * string) Dataset → Z → option Z →
  list relation → option (list string).
Variable aggregate_raster_maps :
  AggregationRequest → gmap (stds_type * string) Dataset →
  option (gmap (stds_type * string) Dataset).

Abbreviation main' := (main collect_map_names aggregate_raster_maps).
Abbreviation aggregate_intervals' :=
  (aggregate_intervals collect_map_names aggregate_raster_maps).
Abbreviation rows_loop :=
  (for_rows collect_map_names aggregate_raster_maps).

(** What is left of [main] once the output is prepared. *)
Lemma main_validated o overwrite mapset s sp_row sampler_row :
  db s !! (strds, qualified (opt_input o) mapset) = Some sp_row →
  db s !! (opt_type o, qualified (opt_sample o) mapset) = Some sampler_row →
  ds_temporal_type sampler_row = ds_temporal_type sp_row →
  time_table_map_time sampler_row = Some interval →
  main' o overwrite mapset s
  = (let* new_sp :=
       prepare_output o overwrite mapset (input_object o mapset sp_row) in
     let* count :=
       aggregate_intervals' o mapset (input_object o mapset sp_row)
         (sampler_object o mapset sampler_row) new_sp in
     update_from_registered_maps (stds_key new_sp) ;;
     close ;;
     ret PyNone) s.
Proof.
  intros Hin Hsm Ht Hm. unfold main. unfold bind at 1.
  rewrite (load_datasets_found _ _ _ _ _ Hin Hsm).
  unfold bind at 1. by rewrite check_compatibility_passes.
Qed.

(** The rows [main] reads after the output was prepared. *)
Lemma aggregate_intervals_rows o mapset sp sampler_sp new_sp s :
  aggregate_intervals' o mapset sp sampler_sp new_sp s
  = match order_by_start (stored_maps (db s) (stds_key sampler_sp)) with
    | [] => Fatal (EmptyDatasetError (stds_id sp)) (logged [EvClose] s)
    | rows => rows_loop o mapset sp new_sp rows 0 s
    end.
Proof.
  unfold aggregate_intervals, bind, get_registered_maps, get_db, ret; simpl.
  destruct (order_by_start _) as [|row rows] eqn:E; [done|].
  by rewrite bool_decide_eq_false_2.
Qed.

(** The sampler still has no map once the output is prepared, also when the
    output took the sampler's place. *)
Lemma stored_maps_prepared o overwrite mapset sp s new_sp s' k :
  prepare_output o overwrite mapset sp s = Ok new_sp s' →
  stored_maps (db s) k = [] →
  stored_maps (db s') k = [].
Proof.
  intros Hp Hk. apply prepare_output_db in Hp as [-> Hdb].
  unfold stored_maps in *. rewrite Hdb.
  destruct (decide (output_key o mapset = k)) as [<-|Hne].
  - by rewrite lookup_insert_eq.
  - by rewrite lookup_insert_ne.
Qed.

(** An empty sampler ends the run after the output was inserted. *)
Lemma empty_sampler_fatal o overwrite mapset s sp_row sampler_row :
  db s !! (strds, qualified (opt_input o) mapset) = Some sp_row →
  db s !! (opt_type o, qualified (opt_sample o) mapset) = Some sampler_row →
  ds_temporal_type sampler_row = ds_temporal_type sp_row →
  time_table_map_time sampler_row = Some interval →
  db s !! output_key o mapset = None ∨ overwrite = true →
  registered_maps sampler_row = [] →
  ∃ l,
    main' o overwrite mapset s
    = Fatal (EmptyDatasetError (qualified (opt_input o) mapset))
        {| db := <[output_key o mapset :=
                     stds_row (fresh_output o mapset sp_row)]> (db s);
           log := log s ++ l ++ [EvInsert (output_key o mapset); EvClose] |}.
Proof.
  intros Hin Hsm Ht Hm Hout Hempty.
  rewrite (main_validated _ _ _ _ _ _ Hin Hsm Ht Hm).
  unfold bind at 1.
  destruct (prepare_output o overwrite mapset (input_object o mapset sp_row) s)
    as [new_sp s1|e s1] eqn:Hp.
  - pose proof (stored_maps_prepared _ _ _ _ _ _ _
                  (stds_key (sampler_object o mapset sampler_row)) Hp) as Hrows.
    unfold bind at 1. rewrite aggregate_intervals_rows.
    rewrite Hrows; [|unfold stored_maps, stds_key; simpl; by rewrite Hsm].
    simpl.
    destruct (db s !! output_key o mapset) as [old|] eqn:Hk.
    + destruct Hout as [ ? | -> ]; [done|].
      rewrite (prepare_output_overwrite _ _ _ _ _ Hk) in Hp.
      injection Hp as <- <-. exists [EvDelete (output_key o mapset)].
      unfold logged. simpl. rewrite insert_delete_eq.
      by rewrite <- !app_assoc.
    + rewrite (prepare_output_absent _ _ _ _ _ Hk) in Hp.
      injection Hp as <- <-. exists [].
      unfold logged. simpl. by rewrite <- !app_assoc.
  - destruct (db s !! output_key o mapset) as [old|] eqn:Hk.
    + destruct Hout as [ ? | -> ]; [done|].
      by rewrite (prepare_output_overwrite _ _ _ _ _ Hk) in Hp.
    + by rewrite (prepare_output_absent _ _ _ _ _ Hk) in Hp.
Qed.

(** A run that completes went through every phase. *)
Lemma main_completes o overwrite mapset s v s' :
  main' o overwrite mapset s = Ok v s' →
  ∃ sp_row sampler_row s1 n s2,
    db s !! (strds, qualified (opt_input o) mapset) = Some sp_row
    ∧ db s !! (opt_type o, qualified (opt_sample o) mapset)
      = Some sampler_row
    ∧ prepare_output o overwrite mapset (input_object o mapset sp_row) s
      = Ok (fresh_output o mapset sp_row) s1
    ∧ order_by_start
        (stored_maps (db s1) (stds_key (sampler_object o mapset sampler_row)))
      ≠ []
    ∧ rows_loop o mapset (input_object o mapset sp_row)
        (fresh_output o mapset sp_row)
        (order_by_start
           (stored_maps (db s1)
              (stds_key (sampler_object o mapset sampler_row))))
        0 s1
      = Ok n s2
    ∧ v = PyNone
    ∧ s' = {| db := alter with_extent (output_key o mapset) (db s2);
              log := log s2 ++ [EvUpdate (output_key o mapset); EvClose] |}.
Proof.
  intros Hrun.
  destruct (db s !! (strds, qualified (opt_input o) mapset))
    as [sp_row|] eqn:Hin.
  2:{ unfold main, bind in Hrun.
      by rewrite (load_datasets_no_input _ _ _ Hin) in Hrun. }
  destruct (db s !! (opt_type o, qualified (opt_sample o) mapset))
    as [sampler_row|] eqn:Hsm.
  2:{ unfold main, bind in Hrun.
      by rewrite (load_datasets_no_sampler _ _ _ _ Hin Hsm) in Hrun. }
  assert (Hchk : check_compatibility (input_object o mapset sp_row)
                   (sampler_object o mapset sampler_row) s = Ok tt s).
  { unfold main in Hrun. unfold bind at 1 in Hrun.
    rewrite (load_datasets_found _ _ _ _ _ Hin Hsm) in Hrun.
    unfold bind at 1 in Hrun.
    destruct (decide (ds_temporal_type sampler_row = ds_temporal_type sp_row))
      as [Ht|Ht].
    - destruct (decide (time_table_map_time sampler_row = Some interval))
        as [Hm|Hm].
      + by apply check_compatibility_passes.
      + by rewrite check_compatibility_no_interval in Hrun.
    - by rewrite check_compatibility_mismatch in Hrun. }
  unfold main in Hrun. unfold bind at 1 in Hrun.
  rewrite (load_datasets_found _ _ _ _ _ Hin Hsm) in Hrun.
  unfold bind at 1 in Hrun. rewrite Hchk in Hrun.
  unfold bind at 1 in Hrun.
  destruct (prepare_output o overwrite mapset (input_object o mapset sp_row) s)
    as [new_sp s1|e s1] eqn:Hp; [|done].
  destruct (prepare_output_db _ _ _ _ _ _ _ Hp) as [-> _].
  change (stds_row (input_object o mapset sp_row)) with sp_row in *.
  unfold bind at 1 in Hrun. rewrite aggregate_intervals_rows in Hrun.
  destruct (order_by_start _) as [|row rows] eqn:Hrows; [done|].
  destruct (rows_loop _ _ _ _ (row :: rows) 0 s1) as [n s2|e s2] eqn:Hloop;
    [|done].
  exists sp_row, sampler_row, s1, n, s2.
  rewrite Hrows, Hloop.
  rewrite update_and_close in Hrun.
  destruct (stored_maps (db s2) _); [done|].
  injection Hrun as <- <-.
  repeat split; done.
Qed.

(** *** Output preparation *)

(** C2: when a dataset already occupies the output id and the run gets as
    far as the output, then with overwrite permitted the stored dataset is
    deleted and a fresh one, with the temporal type, semantic type, title
    and description of the source and no registered map, is inserted in its
    place, and the run goes on from there; without overwrite the run ends
    with [AlreadyExistsError], the database as it was and no aggregation
    requested. *)
Theorem C2_existing_output_overwritten_or_refused
    o mapset s sp_row sampler_row old :
  db s !! (strds, qualified (opt_input o) mapset) = Some sp_row →
  db s !! (opt_type o, qualified (opt_sample o) mapset) = Some sampler_row →
  ds_temporal_type sampler_row = ds_temporal_type sp_row →
  time_table_map_time sampler_row = Some interval →
  db s !! output_key o mapset = Some old →
  let sp := input_object o mapset sp_row in
  let new_sp := fresh_output o mapset sp_row in
  let prepared :=
    {| db := <[output_key o mapset := stds_row new_sp]>
               (delete (output_key o mapset) (db s));
       log := log s ++ [EvDelete (output_key o mapset);
                        EvInsert (output_key o mapset)] |} in
  (get_initial_values (stds_row new_sp) = get_initial_values sp_row
   ∧ registered_maps (stds_row new_sp) = []
   ∧ stds_key new_sp = output_key o mapset)
  ∧ (prepare_output o true mapset sp s = Ok new_sp prepared
     ∧ db prepared !! output_key o mapset = Some (stds_row new_sp)
     ∧ main' o true mapset s
       = (let* count :=
            aggregate_intervals' o mapset sp
              (sampler_object o mapset sampler_row) new_sp in
          update_from_registered_maps (stds_key new_sp) ;;
          close ;;
          ret PyNone) prepared)
  ∧ (prepare_output o false mapset sp s
     = Fatal (AlreadyExistsError (qualified (opt_output o) mapset))
         (logged [EvClose] s)
     ∧ main' o false mapset s
       = Fatal (AlreadyExistsError (qualified (opt_output o) mapset))
           (logged [EvClose] s)).
Proof.
  intros Hin Hsm Ht Hm Hout sp new_sp prepared.
  pose proof (prepare_output_overwrite _ _ sp _ _ Hout) as Hover.
  pose proof (prepare_output_refused _ _ sp _ _ Hout) as Hrefused.
  subst sp new_sp prepared.
  split; [done|]. split.
  - split; [exact Hover|].
    split; [apply lookup_insert_eq|].
    rewrite (main_validated _ _ _ _ _ _ Hin Hsm Ht Hm).
    unfold bind at 1. by rewrite Hover.
  - split; [exact Hrefused|].
    rewrite (main_validated _ _ _ _ _ _ Hin Hsm Ht Hm).
    unfold bind at 1. by rewrite Hrefused.
Qed.

(** *** Compatibility of the input and the sampler *)

(** C3: with both datasets loaded, different temporal types end the run
    with [TemporalTypeMismatchError]; equal temporal types and a map time
    of the sampler other than "interval" end it with
    [IntervalRequiredError].  In both cases the database is the one the
    run started with and the only call logged is the closing of the
    connection: no output dataset was created. *)
Theorem C3_incompatible_datasets_rejected
    o overwrite mapset s sp_row sampler_row :
  db s !! (strds, qualified (opt_input o) mapset) = Some sp_row →
  db s !! (opt_type o, qualified (opt_sample o) mapset) = Some sampler_row →
  (ds_temporal_type sampler_row ≠ ds_temporal_type sp_row →
   main' o overwrite mapset s
   = Fatal TemporalTypeMismatchError (logged [EvClose] s))
  ∧ (ds_temporal_type sampler_row = ds_temporal_type sp_row →
     time_table_map_time sampler_row ≠ Some interval →
     main' o overwrite mapset s
     = Fatal IntervalRequiredError (logged [EvClose] s)).
Proof.
  intros Hin Hsm. split.
  - intros Ht. unfold main. unfold bind at 1.
    rewrite (load_datasets_found _ _ _ _ _ Hin Hsm).
    unfold bind at 1. by rewrite check_compatibility_mismatch.
  - intros Ht Hm. unfold main. unfold bind at 1.
    rewrite (load_datasets_found _ _ _ _ _ Hin Hsm).
    unfold bind at 1. by rewrite check_compatibility_no_interval.
Qed.

(** *** The id shown in the messages about the sampler *)

(** C10: with the input loaded, a sampler that is not in the database ends
    the run with the message "Dataset <id> not found in temporal database",
    and a sampler without registered maps (in a run that gets that far)
    ends it with "Aggregation dataset <id> is empty", where [id] is the
    qualified id of the input in both; when the sampler has another
    qualified id, these are not the messages that would show the
    sampler's. *)
Theorem C10_sampler_errors_show_input_id o overwrite mapset s sp_row :
  db s !! (strds, qualified (opt_input o) mapset) = Some sp_row →
  let id := qualified (opt_input o) mapset in
  let sampler_id := qualified (opt_sample o) mapset in
  (db s !! (opt_type o, sampler_id) = None →
   main' o overwrite mapset s
   = Fatal (NotFoundError id) (logged [EvClose] s))
  ∧ (∀ sampler_row,
       db s !! (opt_type o, sampler_id) = Some sampler_row →
       ds_temporal_type sampler_row = ds_temporal_type sp_row →
       time_table_map_time sampler_row = Some interval →
       db s !! output_key o mapset = None ∨ overwrite = true →
       registered_maps sampler_row = [] →
       ∃ s', main' o overwrite mapset s = Fatal (EmptyDatasetError id) s')
  ∧ message (NotFoundError id)
    = "Dataset <" +:+ id +:+ "> not found in temporal database"
  ∧ message (EmptyDatasetError id)
    = "Aggregation dataset <" +:+ id +:+ "> is empty"
  ∧ (id ≠ sampler_id →
     message (NotFoundError id) ≠ message (NotFoundError sampler_id)
     ∧ message (EmptyDatasetError id)
       ≠ message (EmptyDatasetError sampler_id)).
Proof.
  intros Hin id sampler_id. repeat split.
  - intros Hsm. unfold main. unfold bind at 1.
    by rewrite (load_datasets_no_sampler _ _ _ _ Hin Hsm).
  - intros sampler_row Hsm Ht Hm Hout Hempty.
    destruct (empty_sampler_fatal _ _ _ _ _ _ Hin Hsm Ht Hm Hout Hempty)
      as [l ->].
    eauto.
  - intros Heq. by apply message_not_found_inj in Heq.
  - intros Heq. by apply message_empty_inj in Heq.
Qed.

(** *** The enumeration of the sampler intervals *)

Lemma for_rows_requests o mapset sp new_sp rows count s :
  log_extends
    (λ e, ∃ (i : nat) row names,
        rows !! i = Some row
        ∧ e = EvAggregate
                (request_for o mapset new_sp names
                   (count + 1 + Z.of_nat i) row))
    s (final_state (rows_loop o mapset sp new_sp rows count s)).
Proof.
  revert count s. induction rows as [|row rest IH]; intros count s.
  - exists []. simpl. by rewrite app_nil_r.
  - cbn [for_rows]. unfold bind at 1.
    destruct (truthy (collect_map_names sp (db s) (start_time row)
                        (end_time row) (opt_sampling o))) eqn:Htruth.
    + rewrite loop_body_submit by done. unfold bind at 1.
      match goal with |- context [call_aggregate_raster_maps _ ?rq s] =>
        pose proof (call_aggregate_log aggregate_raster_maps rq s) as Hl;
        destruct (call_aggregate_raster_maps aggregate_raster_maps rq s)
          as [[] s1|e s1];
        simpl in Hl |- *;
        [ destruct (IH (count + 1) s1) as (l & Hl' & Hall);
          exists (EvAggregate rq :: l)
        | exists [EvAggregate rq] ]
      end.
      * split; [rewrite Hl', Hl; by rewrite <- app_assoc|].
        constructor.
        -- exists 0%nat, row. eexists. split; [done|].
           by rewrite Z.add_0_r.
        -- eapply Forall_impl; [exact Hall|].
           intros e (i & r & names & Hi & ->).
           exists (S i), r, names. split; [done|].
           do 2 f_equal. lia.
      * split; [exact Hl|]. constructor; [|constructor].
        exists 0%nat, row. eexists. split; [done|].
        by rewrite Z.add_0_r.
    + rewrite loop_body_skip by done.
      destruct (IH (count + 1) s) as (l & Hl' & Hall).
      exists l. split; [done|].
      eapply Forall_impl; [exact Hall|].
      intros e (i & r & names & Hi & ->).
      exists (S i), r, names. split; [done|].
      do 2 f_equal. lia.
Qed.

(** What is left of [main] from the state in which the output is
    prepared. *)
Lemma main_prepared o overwrite mapset s sp_row sampler_row new_sp s1 :
  db s !! (strds, qualified (opt_input o) mapset) = Some sp_row →
  db s !! (opt_type o, qualified (opt_sample o) mapset) = Some sampler_row →
  ds_temporal_type sampler_row = ds_temporal_type sp_row →
  time_table_map_time sampler_row = Some interval →
  prepare_output o overwrite mapset (input_object o mapset sp_row) s
  = Ok new_sp s1 →
  main' o overwrite mapset s
  = (let* count :=
       aggregate_intervals' o mapset (input_object o mapset sp_row)
         (sampler_object o mapset sampler_row) new_sp in
     update_from_registered_maps (stds_key new_sp) ;;
     close ;;
     ret PyNone) s1.
Proof.
  intros Hin Hsm Ht Hm Hp.
  rewrite (main_validated _ _ _ _ _ _ Hin Hsm Ht Hm).
  unfold bind at 1. by rewrite Hp.
Qed.

(** Lines 174-189 as a run over the indexed intervals. *)
Lemma aggregate_intervals_run o mapset sp sampler_sp new_sp s :
  aggregate_intervals' o mapset sp sampler_sp new_sp s
  = match order_by_start (stored_maps (db s) (stds_key sampler_sp)) with
    | [] => Fatal (EmptyDatasetError (stds_id sp)) (logged [EvClose] s)
    | rows =>
        (run_intervals collect_map_names aggregate_raster_maps
           o mapset sp new_sp (intervals rows) ;;
         ret (Z.of_nat (length rows))) s
    end.
Proof.
  rewrite aggregate_intervals_rows.
  destruct (order_by_start _) as [|row rows]; [done|].
  by rewrite for_rows_run_intervals.
Qed.

(** C4: in a run that gets as far as the rows of the sampler, [main] reads
    them by ascending start time (they are exactly the registered maps of
    the sampler); the interval at position [i] (from 0) of that enumeration
    carries index [i + 1]; what [main] does from there is, unless there is
    no row, the run over these indexed intervals, followed by the update of
    the output; every aggregation request of the run carries the index and
    the bounds of its row; and after a row whose match is empty the loop
    goes on with the next index. *)
Theorem C4_intervals_ascending_and_densely_indexed
    o overwrite mapset s sp_row sampler_row new_sp s1 :
  db s !! (strds, qualified (opt_input o) mapset) = Some sp_row →
  db s !! (opt_type o, qualified (opt_sample o) mapset) = Some sampler_row →
  ds_temporal_type sampler_row = ds_temporal_type sp_row →
  time_table_map_time sampler_row = Some interval →
  prepare_output o overwrite mapset (input_object o mapset sp_row) s
  = Ok new_sp s1 →
  let sp := input_object o mapset sp_row in
  let sampler_sp := sampler_object o mapset sampler_row in
  let rows := order_by_start (stored_maps (db s1) (stds_key sampler_sp)) in
  get_registered_maps (stds_key sampler_sp) s1 = Ok rows s1
  ∧ StronglySorted start_le rows
  ∧ rows ≡ₚ stored_maps (db s1) (stds_key sampler_sp)
  ∧ (∀ i : nat,
       intervals rows !! i = (λ row, (Z.of_nat i + 1, row)) <$> rows !! i)
  ∧ aggregate_intervals' o mapset sp sampler_sp new_sp s1
    = match rows with
      | [] => Fatal (EmptyDatasetError (stds_id sp)) (logged [EvClose] s1)
      | _ :: _ =>
          (run_intervals collect_map_names aggregate_raster_maps
             o mapset sp new_sp (intervals rows) ;;
           ret (Z.of_nat (length rows))) s1
      end
  ∧ main' o overwrite mapset s
    = match rows with
      | [] => Fatal (EmptyDatasetError (stds_id sp)) (logged [EvClose] s1)
      | _ :: _ =>
          (run_intervals collect_map_names aggregate_raster_maps
             o mapset sp new_sp (intervals rows) ;;
           update_from_registered_maps (stds_key new_sp) ;;
           close ;;
           ret PyNone) s1
      end
  ∧ log_extends
      (λ e, is_aggregate e = true →
            ∃ (i : nat) row names,
              rows !! i = Some row
              ∧ e = EvAggregate
                      (request_for o mapset new_sp names
                         (Z.of_nat i + 1) row))
      s1 (final_state (main' o overwrite mapset s))
  ∧ (∀ row rest count s2,
       truthy (collect_map_names sp (db s2) (start_time row) (end_time row)
                 (opt_sampling o)) = false →
       rows_loop o mapset sp new_sp (row :: rest) count s2
       = rows_loop o mapset sp new_sp rest (count + 1) s2).
Proof.
  intros Hin Hsm Ht Hm Hp sp sampler_sp rows.
  pose proof (main_prepared _ _ _ _ _ _ _ _ Hin Hsm Ht Hm Hp) as Hmain.
  fold sp sampler_sp in Hmain.
  split; [done|]. split; [apply order_by_start_sorted|].
  split; [apply order_by_start_perm|]. split.
  { intros i. unfold intervals. rewrite enumerate_from_lookup.
    destruct (rows !! i); simpl; [|done]. do 2 f_equal. lia. }
  split.
  { rewrite aggregate_intervals_run. fold rows. by destruct rows. }
  split.
  { rewrite Hmain. unfold bind at 1. rewrite aggregate_intervals_run.
    fold rows. destruct rows as [|row rest]; [done|].
    unfold bind, ret.
    by destruct (run_intervals _ _ _ _ _ _ _ s1). }
  split.
  { rewrite Hmain. unfold bind at 1. rewrite aggregate_intervals_rows.
    fold rows. destruct rows as [|row rest] eqn:Hrows.
    - exists [EvClose]. split; [done|]. by repeat constructor.
    - rewrite <- Hrows.
      destruct (for_rows_requests o mapset sp new_sp rows 0 s1)
        as (l & Hl & Hall).
      assert (Hall' : Forall
        (λ e, is_aggregate e = true →
              ∃ (i : nat) row names,
                rows !! i = Some row
                ∧ e = EvAggregate
                        (request_for o mapset new_sp names
                           (Z.of_nat i + 1) row)) l).
      { eapply Forall_impl; [exact Hall|].
        intros e (i & r & names & Hi & ->) _.
        exists i, r, names. split; [done|]. do 2 f_equal. lia. }
      destruct (rows_loop o mapset sp new_sp rows 0 s1) as [n s2|e s2];
        cbn [final_state] in Hl.
      + rewrite update_and_close.
        destruct (stored_maps (db s2) (stds_key new_sp)).
        * exists (l ++ [EvUpdate (stds_key new_sp)]). split.
          -- cbn. rewrite Hl. by rewrite <- app_assoc.
          -- apply Forall_app. split; [done|]. by repeat constructor.
        * exists (l ++ [EvUpdate (stds_key new_sp); EvClose]). split.
          -- cbn. rewrite Hl. by rewrite <- app_assoc.
          -- apply Forall_app. split; [done|]. by repeat constructor.
      + by exists l. }
  intros row rest count s2 Hempty. cbn [for_rows]. unfold bind at 1.
  by rewrite loop_body_skip.
Qed.

(** *** Intervals without matching maps *)

(** C5: for a row whose match is empty (Python false: [None] or an empty
    list) the loop body leaves the database and the log as they are (no
    request, no map registered) and answers the next value of [count], and
    the loop goes on with the rest of the rows; for a row whose match is
    not empty the request is submitted, so the body leaves the state
    unchanged only in the first case. *)
Theorem C5_empty_match_skipped o mapset sp new_sp count row rest s :
  let names :=
    collect_map_names sp (db s) (start_time row) (end_time row)
      (opt_sampling o) in
  (truthy names = false →
   loop_body collect_map_names aggregate_raster_maps
     o mapset sp new_sp count row s = Ok (count + 1) s
   ∧ rows_loop o mapset sp new_sp (row :: rest) count s
     = rows_loop o mapset sp new_sp rest (count + 1) s)
  ∧ (truthy names = true →
     log (final_state
            (loop_body collect_map_names aggregate_raster_maps
               o mapset sp new_sp count row s))
     = log s ++ [EvAggregate
                   (request_for o mapset new_sp names (count + 1) row)])
  ∧ (loop_body collect_map_names aggregate_raster_maps
       o mapset sp new_sp count row s = Ok (count + 1) s
     ↔ truthy names = false).
Proof.
  intros names.
  assert (Hskip : truthy names = false →
    loop_body collect_map_names aggregate_raster_maps
      o mapset sp new_sp count row s = Ok (count + 1) s).
  { intros H. by apply loop_body_skip. }
  assert (Hsubmit : truthy names = true →
    log (final_state
           (loop_body collect_map_names aggregate_raster_maps
              o mapset sp new_sp count row s))
    = log s ++ [EvAggregate
                  (request_for o mapset new_sp names (count + 1) row)]).
  { intros H. rewrite loop_body_submit by done. unfold bind.
    pose proof (call_aggregate_log aggregate_raster_maps
                  (request_for o mapset new_sp names (count + 1) row) s)
      as Hl.
    fold names.
    by destruct (call_aggregate_raster_maps aggregate_raster_maps _ s)
      as [[] s1|e s1]. }
  split; [|split; [exact Hsubmit|split; [|exact Hskip]]].
  - intros H. split; [by apply Hskip|].
    cbn [for_rows]. unfold bind at 1. by rewrite Hskip.
  - intros Hbody. destruct (truthy names) eqn:Htruth; [|done].
    specialize (Hsubmit eq_refl). rewrite Hbody in Hsubmit.
    simpl in Hsubmit.
    apply (f_equal length) in Hsubmit. rewrite length_app in Hsubmit.
    simpl in Hsubmit. lia.
Qed.

(** *** The count of intervals *)

(** C7 (as the code has it): in every run that completes, the loop has
    advanced [count] from 0 to the number of rows of the sampler, rows
    without matching maps included; [main] then drops that number: what it
    answers is [None], and the final state is the state the loop left with
    the update of the output and the closing of the connection added. *)
Theorem C7_count_reaches_total_and_is_dropped o overwrite mapset s v s' :
  main' o overwrite mapset s = Ok v s' →
  v = PyNone
  ∧ ∃ sp_row sampler_row s1 s2,
      let rows :=
        order_by_start
          (stored_maps (db s1)
             (stds_key (sampler_object o mapset sampler_row))) in
      db s !! (strds, qualified (opt_input o) mapset) = Some sp_row
      ∧ db s !! (opt_type o, qualified (opt_sample o) mapset)
        = Some sampler_row
      ∧ prepare_output o overwrite mapset (input_object o mapset sp_row) s
        = Ok (fresh_output o mapset sp_row) s1
      ∧ rows ≠ []
      ∧ rows_loop o mapset (input_object o mapset sp_row)
          (fresh_output o mapset sp_row) rows 0 s1
        = Ok (Z.of_nat (length rows)) s2
      ∧ s' = {| db := alter with_extent (output_key o mapset) (db s2);
                log := log s2
                       ++ [EvUpdate (output_key o mapset); EvClose] |}.
Proof.
  intros Hrun.
  destruct (main_completes _ _ _ _ _ _ Hrun)
    as (sp_row & sampler_row & s1 & n & s2
        & Hin & Hsm & Hp & Hrows & Hloop & -> & ->).
  split; [done|].
  exists sp_row, sampler_row, s1, s2. simpl.
  do 4 (split; [done|]). split; [|done].
  rewrite Hloop. f_equal.
  apply for_rows_count in Hloop. lia.
Qed.

(** *** The update of the output *)

(** C8 (as the code has it): in a run that reaches the loop, the loop
    itself logs no update of the output.  When the loop completes, [main]
    calls the update of the output once, after everything the loop logged:
    with a map registered in the output it then closes the connection and
    answers; with no map registered the update ends the run with
    [EmptyAggregationError].  When the aggregation service ends the run
    inside the loop, no update is logged at all. *)
Theorem C8_update_once_after_completed_loop
    o overwrite mapset s sp_row sampler_row new_sp s1 :
  db s !! (strds, qualified (opt_input o) mapset) = Some sp_row →
  db s !! (opt_type o, qualified (opt_sample o) mapset) = Some sampler_row →
  ds_temporal_type sampler_row = ds_temporal_type sp_row →
  time_table_map_time sampler_row = Some interval →
  prepare_output o overwrite mapset (input_object o mapset sp_row) s
  = Ok new_sp s1 →
  let rows :=
    order_by_start
      (stored_maps (db s1) (stds_key (sampler_object o mapset sampler_row))) in
  rows ≠ [] →
  match rows_loop o mapset (input_object o mapset sp_row) new_sp rows 0 s1
  with
  | Ok n s2 =>
      main' o overwrite mapset s
      = match stored_maps (db s2) (output_key o mapset) with
        | [] =>
            Fatal EmptyAggregationError
              (logged [EvUpdate (output_key o mapset)] s2)
        | _ :: _ =>
            Ok PyNone
              {| db := alter with_extent (output_key o mapset) (db s2);
                 log := log s2
                        ++ [EvUpdate (output_key o mapset); EvClose] |}
        end
      ∧ finalizations (log s2) = finalizations (log s)
      ∧ finalizations (log (final_state (main' o overwrite mapset s)))
        = S (finalizations (log s))
  | Fatal e s2 =>
      main' o overwrite mapset s = Fatal e s2
      ∧ finalizations (log s2) = finalizations (log s)
  end.
Proof.
  intros Hin Hsm Ht Hm Hp rows Hrows.
  pose proof (prepare_output_finalizations _ _ _ _ _ _ _ Hp) as Hfin.
  destruct (prepare_output_db _ _ _ _ _ _ _ Hp) as [Hnew _].
  assert (Hkey : stds_key new_sp = output_key o mapset) by by subst new_sp.
  assert (Hmain : main' o overwrite mapset s
    = (let* count :=
         rows_loop o mapset (input_object o mapset sp_row) new_sp rows 0 in
       update_from_registered_maps (stds_key new_sp) ;;
       close ;;
       ret PyNone) s1).
  { rewrite (main_validated _ _ _ _ _ _ Hin Hsm Ht Hm).
    unfold bind at 1. rewrite Hp. unfold bind at 1 4.
    rewrite aggregate_intervals_rows. fold rows.
    by destruct rows. }
  destruct (for_rows_log collect_map_names aggregate_raster_maps
              o mapset (input_object o mapset sp_row) new_sp rows 0 s1)
    as (l & Hl & Hall).
  apply finalizations_aggregate in Hall.
  destruct (rows_loop _ _ _ _ rows 0 s1) as [n s2|e s2] eqn:Hloop;
    simpl in Hl.
  - assert (Hs2 : finalizations (log s2) = finalizations (log s)).
    { rewrite Hl, finalizations_app. lia. }
    assert (Hres : main' o overwrite mapset s
      = match stored_maps (db s2) (output_key o mapset) with
        | [] =>
            Fatal EmptyAggregationError
              (logged [EvUpdate (output_key o mapset)] s2)
        | _ :: _ =>
            Ok PyNone
              {| db := alter with_extent (output_key o mapset) (db s2);
                 log := log s2
                        ++ [EvUpdate (output_key o mapset); EvClose] |}
        end).
    { rewrite Hmain. unfold bind at 1. rewrite Hloop.
      rewrite update_and_close. by rewrite Hkey. }
    split; [exact Hres|]. split; [done|].
    rewrite Hres.
    destruct (stored_maps (db s2) (output_key o mapset));
      unfold logged; cbn [final_state log];
      rewrite finalizations_app; unfold finalizations at 2; simpl; lia.
  - assert (Hres : main' o overwrite mapset s = Fatal e s2).
    { rewrite Hmain. unfold bind at 1. by rewrite Hloop. }
    split; [done|]. rewrite Hl, finalizations_app. lia.
Qed.

(** *** The role of the [type] option *)




Lemma only_logs_change_db P f e : P e → only_logs P (change_db f e).
Proof. intros He s. exists [e]. split; [done|]. by repeat constructor. Qed.







End Run.

(** ** The matcher *)

Lemma selected_iff (relation_set : list relation) (s e : Z) (m : MapEntry) :
  selected relation_set s e m = true
  ↔ ∃ r, r ∈ relation_set
         ∧ satisfies r (start_time m) (end_time m) s e = true.
Proof.
  unfold selected. rewrite existsb_exists.
  split; intros (r & Hr & Hs); exists r; split;
    first [ done | by apply list_elem_of_In ].
Qed.

Lemma match_maps_iff maps s e relation_set i :
  i ∈ match_maps maps s e relation_set
  ↔ ∃ m r, m ∈ maps ∧ map_id m = i ∧ r ∈ relation_set
           ∧ satisfies r (start_time m) (end_time m) s e = true.
Proof.
  unfold match_maps.
  rewrite elem_of_remove_dups, list_elem_of_fmap. split.
  - intros (m & -> & Hm). apply list_elem_of_filter in Hm as [Hsel Hm].
    rewrite order_by_start_perm in Hm.
    apply selected_iff in Hsel as (r & Hr & Hs). by exists m, r.
  - intros (m & r & Hm & <- & Hr & Hs). exists m. split; [done|].
    apply list_elem_of_filter. split.
    + apply selected_iff. by exists r.
    + by rewrite order_by_start_perm.
Qed.

(** C6: a source map with span [10,20) satisfies each of the five relations
    against the interval [10,20), so the matcher run with any single
    relation includes it; and in general an identifier is in the result of
    the matcher exactly when one of the maps with that identifier satisfies
    one of the selected relations. *)
Theorem C6_equal_span_matches_every_relation_and_any_suffices :
  (∀ r, satisfies r 10 (Some 20) 10 20 = true)
  ∧ (∀ r i others,
       i ∈ match_maps
             ({| map_id := i; start_time := 10; end_time := Some 20 |}
              :: others) 10 20 [r])
  ∧ (∀ maps s e relation_set i,
       i ∈ match_maps maps s e relation_set
       ↔ ∃ m r, m ∈ maps ∧ map_id m = i ∧ r ∈ relation_set
                ∧ satisfies r (start_time m) (end_time m) s e = true).
Proof.
  split; [by intros []|]. split; [|apply match_maps_iff].
  intros r i others. apply match_maps_iff.
  exists {| map_id := i; start_time := 10; end_time := Some 20 |}, r.
  repeat split.
  - apply elem_of_cons. by left.
  - by apply list_elem_of_singleton.
  - by destruct r.
Qed.

(** The second relation example of the spec: span [5,12) against [10,20)
    satisfies "overlap" and none of the other relations. *)
Example satisfies_overlap_only :
  (λ r, satisfies r 5 (Some 12) 10 20) <$> [Equal; Start; During; Contain; Overlap]
  = [false; false; false; false; true].
Proof. reflexivity. Qed.

(** ** Sample runs *)

Import Sample.

(** The end-to-end example of the spec: one interval [0,20), relation
    "overlap", method "sum": one request with index 1 for the maps A and B,
    one output map ["base_1"] spanning [0,20), one update, and [None]. *)
Example end_to_end :
  ∃ s',
    main_spec computes (opts [Overlap]) false "user"
      (start_state (catalog one_window)) = Ok PyNone s'
    ∧ stored_maps (db s') (strds, "out@user") = [window "base_1" 0 20]
    ∧ temporal_extent <$> db s' !! (strds, "out@user")
      = Some (Some (0, Some 20))
    ∧ (λ e, match e with
            | EvAggregate rq => Some (rq_count rq, rq_inputs rq)
            | _ => None
            end) <$> log s'
      = [None; Some (1, ["A"; "B"]); None; None].
Proof. eexists. vm_compute. repeat split. Qed.

(** An interval without matching maps uses up its index: the request for
    the second interval carries index 2 and its map is ["base_2"]. *)
Example gap_keeps_index :
  ∃ s',
    main_spec computes (opts [Overlap]) false "user"
      (start_state (catalog gap_then_window)) = Ok PyNone s'
    ∧ stored_maps (db s') (strds, "out@user") = [window "base_2" 0 20]
    ∧ omap (λ e, match e with
                 | EvAggregate rq => Some (rq_count rq)
                 | _ => None
                 end) (log s')
      = [2].
Proof. eexists. vm_compute. repeat split. Qed.

(** The second run of the same command without overwrite is refused and
    leaves the output of the first run as it is. *)
Example second_run_refused :
  ∃ s1,
    main_spec computes (opts [Overlap]) false "user"
      (start_state (catalog one_window)) = Ok PyNone s1
    ∧ main_spec computes (opts [Overlap]) false "user" s1
      = Fatal (AlreadyExistsError "out@user") (logged [EvClose] s1).
Proof. eexists. split; vm_compute; reflexivity. Qed.

(** C1 (what the code does): with a sampler that has no registered map the
    run ends with the message of [EmptyDatasetError], and by then the
    output has been inserted in the database: the database is no longer
    the one the run started with.  With overwrite permitted, the dataset
    that occupied the output id has been deleted as well. *)
Theorem C1_empty_sampler_fatal_after_output_inserted :
  let o := opts [Start] in
  let s := start_state (catalog no_window) in
  let s_taken := start_state (taken (catalog no_window)) in
  let out := (strds, "out@user") in
  (stored_maps (db s) (strds, "smp@user") = []
   ∧ db s !! out = None
   ∧ main_spec computes o false "user" s
     = Fatal (EmptyDatasetError "src@user")
         {| db := <[out := stds_row (fresh_output o "user" source)]> (db s);
            log := [EvInsert out; EvClose] |})
  ∧ (db s_taken !! out = Some earlier_output
     ∧ main_spec computes o true "user" s_taken
       = Fatal (EmptyDatasetError "src@user")
           {| db := <[out := stds_row (fresh_output o "user" source)]>
                      (db s_taken);
              log := [EvDelete out; EvInsert out; EvClose] |}).
Proof. vm_compute. repeat split. Qed.

(** With the output id taken by the output of an earlier run: without
    overwrite the run is refused and nothing changes; with overwrite the
    earlier output is replaced by the fresh row. *)
Lemma C2_witness_output_taken :
  let o := opts [Overlap] in
  let s := start_state (taken (catalog one_window)) in
  db s !! output_key o "user" = Some earlier_output
  ∧ main_spec computes o false "user" s
    = Fatal (AlreadyExistsError "out@user") (logged [EvClose] s)
  ∧ prepare_output o true "user" (input_object o "user" source) s
    = Ok (fresh_output o "user" source)
        {| db := <[output_key o "user" :=
                     stds_row (fresh_output o "user" source)]>
                   (delete (output_key o "user") (db s));
           log := log s ++ [EvDelete (output_key o "user");
                            EvInsert (output_key o "user")] |}.
Proof.
  intros o s.
  pose proof (C2_existing_output_overwritten_or_refused
                collect_map_names_spec (aggregate_raster_maps_spec computes)
                o "user" s source one_window earlier_output
                eq_refl eq_refl eq_refl eq_refl eq_refl) as H.
  cbv zeta in H. destruct H as (_ & (Hprep & _ & _) & (_ & Hmain)).
  split; [reflexivity|]. split; [exact Hmain|exact Hprep].
Defined.

(** A sampler in absolute time against a source in relative time, and a
    sampler whose maps have no end: both runs end before anything is
    written. *)
Lemma C3_witness_incompatible_samplers :
  let o := opts [Overlap] in
  let s_abs := start_state (catalog absolute_windows) in
  let s_pts := start_state (catalog instants) in
  main_spec computes o false "user" s_abs
  = Fatal TemporalTypeMismatchError (logged [EvClose] s_abs)
  ∧ main_spec computes o false "user" s_pts
    = Fatal IntervalRequiredError (logged [EvClose] s_pts).
Proof.
  intros o s_abs s_pts. split.
  - apply (proj1 (C3_incompatible_datasets_rejected
                    collect_map_names_spec
                    (aggregate_raster_maps_spec computes)
                    o false "user" s_abs source absolute_windows
                    eq_refl eq_refl)).
    discriminate.
  - apply (proj2 (C3_incompatible_datasets_rejected
                    collect_map_names_spec
                    (aggregate_raster_maps_spec computes)
                    o false "user" s_pts source instants
                    eq_refl eq_refl)).
    + reflexivity.
    + discriminate.
Defined.

(** The sampler holds [-50,-40), which no source map overlaps, and
    [0,20): the run is the run over the intervals with indices 1 and 2,
    and its only request carries index 2. *)
Lemma C4_witness_gap_then_window :
  let o := opts [Overlap] in
  let s := start_state (catalog gap_then_window) in
  let sp := input_object o "user" source in
  let new_sp := fresh_output o "user" source in
  let s1 :=
    {| db := <[output_key o "user" := stds_row new_sp]> (db s);
       log := log s ++ [EvInsert (output_key o "user")] |} in
  let rows :=
    order_by_start
      (stored_maps (db s1)
         (stds_key (sampler_object o "user" gap_then_window))) in
  rows = [window "w0" (-50) (-40); window "w1" 0 20]
  ∧ intervals rows = [(1, window "w0" (-50) (-40)); (2, window "w1" 0 20)]
  ∧ main_spec computes o false "user" s
    = (run_intervals collect_map_names_spec
         (aggregate_raster_maps_spec computes)
         o "user" sp new_sp (intervals rows) ;;
       update_from_registered_maps (stds_key new_sp) ;;
       close ;;
       ret PyNone) s1
  ∧ request_counts (log (final_state (main_spec computes o false "user" s)))
    = [2].
Proof.
  intros o s sp new_sp s1 rows.
  assert (Hprep :
    prepare_output o false "user" (input_object o "user" source) s
    = Ok new_sp s1)
    by (apply prepare_output_absent; reflexivity).
  pose proof (C4_intervals_ascending_and_densely_indexed
                collect_map_names_spec (aggregate_raster_maps_spec computes)
                o false "user" s source gap_then_window new_sp s1
                eq_refl eq_refl eq_refl eq_refl Hprep) as H.
  cbv zeta in H. destruct H as (_ & _ & _ & _ & _ & Hmain & _).
  split; [reflexivity|]. split; [reflexivity|].
  split; [exact Hmain|].
  vm_compute. reflexivity.
Defined.

(** C7, counterexample: a run over two intervals, one of them skipped,
    completes and answers [None], not the number 2. *)
Lemma C7_counterexample_nothing_returned :
  let run :=
    main_spec computes (opts [Overlap]) false "user"
      (start_state (catalog two_windows)) in
  length (order_by_start (registered_maps two_windows)) = 2%nat
  ∧ run = Ok PyNone (final_state run)
  ∧ ¬ ∃ s', run = Ok (PyInt 2) s'.
Proof.
  vm_compute. split; [reflexivity|]. split; [reflexivity|].
  intros [s' H]. discriminate H.
Defined.

Lemma C7_witness_two_intervals :
  let o := opts [Overlap] in
  let s := start_state (catalog two_windows) in
  let run := main_spec computes o false "user" s in
  run = Ok PyNone (final_state run)
  ∧ ∃ sp_row sampler_row s1 s2,
      let rows :=
        order_by_start
          (stored_maps (db s1)
             (stds_key (sampler_object o "user" sampler_row))) in
      db s !! (strds, qualified (opt_input o) "user") = Some sp_row
      ∧ db s !! (opt_type o, qualified (opt_sample o) "user")
        = Some sampler_row
      ∧ prepare_output o false "user" (input_object o "user" sp_row) s
        = Ok (fresh_output o "user" sp_row) s1
      ∧ rows ≠ []
      ∧ for_rows collect_map_names_spec (aggregate_raster_maps_spec computes)
          o "user" (input_object o "user" sp_row)
          (fresh_output o "user" sp_row) rows 0 s1
        = Ok (Z.of_nat (length rows)) s2
      ∧ final_state run
        = {| db := alter with_extent (output_key o "user") (db s2);
             log := log s2 ++ [EvUpdate (output_key o "user"); EvClose] |}.
Proof.
  intros o s run.
  assert (Hrun : run = Ok PyNone (final_state run))
    by (vm_compute; reflexivity).
  split; [exact Hrun|].
  exact (proj2 (C7_count_reaches_total_and_is_dropped
                  collect_map_names_spec
                  (aggregate_raster_maps_spec computes)
                  o false "user" s PyNone (final_state run) Hrun)).
Defined.

(** C8, counterexample: the run reaches the loop, the aggregation service
    fails on the request for the first interval, and the run ends without
    any update of the output. *)
Lemma C8_counterexample_failed_aggregation :
  let run :=
    main_spec fails (opts [Overlap]) false "user"
      (start_state (catalog two_windows)) in
  (∃ s', run = Fatal AggregationComputeError s')
  ∧ (is_aggregate <$> log (final_state run)) = [false; true]
  ∧ finalizations (log (final_state run)) = 0%nat
  ∧ ¬ finalizations (log (final_state run)) = 1%nat.
Proof.
  vm_compute. split; [by eexists|]. split; [reflexivity|].
  split; [reflexivity|]. discriminate.
Defined.

(** A run over two intervals that completes: one update, logged after the
    loop. *)
Lemma C8_witness_completed_run :
  let o := opts [Overlap] in
  let s := start_state (catalog two_windows) in
  let run := main_spec computes o false "user" s in
  run = Ok PyNone (final_state run)
  ∧ finalizations (log (final_state run)) = 1%nat
  ∧ (is_update <$> log (final_state run)) = [false; false; true; false].
Proof.
  intros o s run.
  assert (Hprep :
    prepare_output o false "user" (input_object o "user" source) s
    = Ok (fresh_output o "user" source)
        {| db := <[output_key o "user" :=
                     stds_row (fresh_output o "user" source)]> (db s);
           log := log s ++ [EvInsert (output_key o "user")] |})
    by (apply prepare_output_absent; reflexivity).
  pose proof (C8_update_once_after_completed_loop
                collect_map_names_spec (aggregate_raster_maps_spec computes)
                o false "user" s source two_windows _ _
                eq_refl eq_refl eq_refl eq_refl Hprep) as H.
  cbv zeta in H.
  assert (Hrows :
    order_by_start
      (stored_maps
         (<[output_key o "user" :=
              stds_row (fresh_output o "user" source)]> (db s))
         (stds_key (sampler_object o "user" two_windows))) ≠ [])
    by (vm_compute; discriminate).
  specialize (H Hrows).
  vm_compute in H. destruct H as (Hrun & _ & Hcount).
  split; [vm_compute; reflexivity|].
  split; [vm_compute; exact Hcount|].
  vm_compute; reflexivity.
Defined.

(** The sampler is missing, or has no registered map: the message shows
    ["src@user"], the id of the input, not ["smp@user"]. *)
Lemma C10_witness_messages :
  let o := opts [Overlap] in
  let s_missing :=
    start_state (<[(strds, "src@user") := source]> ∅) in
  let s_empty := start_state (catalog no_window) in
  main_spec computes o false "user" s_missing
  = Fatal (NotFoundError "src@user") (logged [EvClose] s_missing)
  ∧ (∃ s', main_spec computes o false "user" s_empty
           = Fatal (EmptyDatasetError "src@user") s')
  ∧ message (NotFoundError "src@user")
    = "Dataset <src@user> not found in temporal database"
  ∧ message (EmptyDatasetError "src@user")
    = "Aggregation dataset <src@user> is empty"
  ∧ message (NotFoundError "src@user") ≠ message (NotFoundError "smp@user")
  ∧ message (EmptyDatasetError "src@user")
    ≠ message (EmptyDatasetError "smp@user").
Proof.
  intros o s_missing s_empty.
  pose proof (C10_sampler_errors_show_input_id
                collect_map_names_spec (aggregate_raster_maps_spec computes)
                o false "user" s_missing source eq_refl) as Hmissing.
  pose proof (C10_sampler_errors_show_input_id
                collect_map_names_spec (aggregate_raster_maps_spec computes)
                o false "user" s_empty source eq_refl) as Hempty.
  cbv zeta in Hmissing, Hempty.
  destruct Hmissing as (Hnot_found & _).
  destruct Hempty as (_ & Hrows & Hmsg1 & Hmsg2 & Hne).
  split; [exact (Hnot_found eq_refl)|].
  split; [exact (Hrows no_window eq_refl eq_refl eq_refl
                   (or_introl eq_refl) eq_refl)|].
  split; [exact Hmsg1|]. split; [exact Hmsg2|].
  apply Hne. discriminate.
Defined.

(** ** Qualified ids *)

Lemma find_from_separator (a b : string) (c : Ascii.ascii) (i : Z) :
  0 ≤ i → 0 ≤ find_from (a +:+ String c b) c i.
Proof.
  revert i. induction a as [|x a IH]; intros i Hi.
  - change ("" +:+ String c b) with (String c b).
    cbn [find_from]. by rewrite Ascii.eqb_refl.
  - change (String x a +:+ String c b) with (String x (a +:+ String c b)).
    cbn [find_from].
    destruct (Ascii.eqb x c); [done|]. apply IH. lia.
Qed.

(** X1: the id [main] resolves from a name always holds the separator
    ["@"], and resolving a resolved id again, under whatever mapset, gives
    the same id. *)
Theorem X1_qualified_has_separator_and_is_stable (name m1 m2 : string) :
  0 ≤ find (qualified name m1) "@"%char
  ∧ qualified (qualified name m1) m2 = qualified name m1.
Proof.
  assert (H : 0 ≤ find (qualified name m1) "@"%char).
  { unfold qualified. destruct (Z.leb_spec 0 (find name "@"%char)); [done|].
    unfold find. by apply find_from_separator. }
  split; [exact H|].
  unfold qualified at 1. by rewrite (proj2 (Z.leb_le _ _) H).
Qed.

(** ** More on the loop and the phases *)

Section Further.

Variable collect_map_names :
  stds → gmap (stds_type * string) Dataset → Z → option Z →
  list relation → option (list string).
Variable aggregate_raster_maps :
  AggregationRequest → gmap (stds_type * string) Dataset →
  option (gmap (stds_type * string) Dataset).

Abbreviation run := (main collect_map_names aggregate_raster_maps).
Abbreviation loop := (for_rows collect_map_names aggregate_raster_maps).
Abbreviation body := (loop_body collect_map_names aggregate_raster_maps).

(** The loop of a list of rows followed by another is the loop of the
    first, then the loop of the second from the count reached. *)
Lemma for_rows_app o mapset sp new_sp rows1 rows2 count s :
  loop o mapset sp new_sp (rows1 ++ rows2) count s
  = (let* count := loop o mapset sp new_sp rows1 count in
     loop o mapset sp new_sp rows2 count) s.
Proof.
  revert count s. induction rows1 as [|row rest IH]; intros count s; [done|].
  cbn [app for_rows]. unfold bind.
  destruct (body o mapset sp new_sp count row s) as [n s1|e s1]; [|done].
  rewrite IH. reflexivity.
Qed.

(** The only fatal error of the loop is the one of the service. *)
Lemma for_rows_fatal o mapset sp new_sp rows count s e s' :
  loop o mapset sp new_sp rows count s = Fatal e s' →
  e = AggregationComputeError.
Proof.
  revert count s. induction rows as [|row rest IH]; intros count s; [done|].
  cbn [for_rows]. unfold bind at 1.
  destruct (truthy (collect_map_names sp (db s) (start_time row)
                      (end_time row) (opt_sampling o))) eqn:Htruth.
  - rewrite loop_body_submit by done.
    unfold bind, call_aggregate_raster_maps, ret.
    destruct (aggregate_raster_maps _ (db s)); [apply IH|congruence].
  - rewrite loop_body_skip by done. apply IH.
Qed.

(** With a service that answers every request the loop completes. *)
Lemma for_rows_completes o mapset sp new_sp rows count s :
  (∀ rq c, is_Some (aggregate_raster_maps rq c)) →
  ∃ n s', loop o mapset sp new_sp rows count s = Ok n s'.
Proof.
  intros Hsvc. revert count s.
  induction rows as [|row rest IH]; intros count s; [by eexists _, _|].
  cbn [for_rows]. unfold bind at 1.
  destruct (truthy (collect_map_names sp (db s) (start_time row)
                      (end_time row) (opt_sampling o))) eqn:Htruth.
  - rewrite loop_body_submit by done.
    unfold bind, call_aggregate_raster_maps, ret.
    match goal with |- context [aggregate_raster_maps ?rq (db s)] =>
      destruct (Hsvc rq (db s)) as [c' ->] end.
    apply IH.
  - rewrite loop_body_skip by done. apply IH.
Qed.

(** When no row has a match in the state the loop starts from, the loop
    changes nothing. *)
Lemma for_rows_all_skipped o mapset sp new_sp rows count s :
  Forall (λ row, truthy (collect_map_names sp (db s) (start_time row)
                           (end_time row) (opt_sampling o)) = false) rows →
  loop o mapset sp new_sp rows count s
  = Ok (count + Z.of_nat (length rows)) s.
Proof.
  intros Hall. revert count.
  induction Hall as [|row rest Hrow _ IH]; intros count.
  - simpl. unfold ret. by rewrite Z.add_0_r.
  - cbn [for_rows length]. unfold bind at 1.
    rewrite loop_body_skip by done. rewrite IH. f_equal. lia.
Qed.

Lemma request_counts_app (l1 l2 : list Event) :
  request_counts (l1 ++ l2) = request_counts l1 ++ request_counts l2.
Proof. unfold request_counts. apply omap_app. Qed.

(** What [main] does once the output is prepared, by the rows it reads,
    the way the loop ends and the maps the output then holds. *)
Lemma main_tail o mapset sp sampler_sp new_sp s1 :
  (let* count :=
     aggregate_intervals collect_map_names aggregate_raster_maps
       o mapset sp sampler_sp new_sp in
   update_from_registered_maps (stds_key new_sp) ;;
   close ;;
   ret PyNone) s1
  = match order_by_start (stored_maps (db s1) (stds_key sampler_sp)) with
    | [] => Fatal (EmptyDatasetError (stds_id sp)) (logged [EvClose] s1)
    | rows =>
        match loop o mapset sp new_sp rows 0 s1 with
        | Ok n s2 =>
            match stored_maps (db s2) (stds_key new_sp) with
            | [] =>
                Fatal EmptyAggregationError
                  (logged [EvUpdate (stds_key new_sp)] s2)
            | _ :: _ =>
                Ok PyNone
                  {| db := alter with_extent (stds_key new_sp) (db s2);
                     log := log s2
                            ++ [EvUpdate (stds_key new_sp); EvClose] |}
            end
        | Fatal e s2 => Fatal e s2
        end
    end.
Proof.
  unfold bind at 1. rewrite aggregate_intervals_rows.
  destruct (order_by_start _) as [|row rows]; [done|].
  destruct (loop o mapset sp new_sp (row :: rows) 0 s1) as [n s2|e s2];
    [|done].
  apply update_and_close.
Qed.

(** Every run either ends before the output with the database untouched,
    or prepares the output and goes on from the prepared state. *)
Lemma main_cases o overwrite mapset s :
  (∃ e, before_output e = true
        ∧ run o overwrite mapset s = Fatal e (logged [EvClose] s))
  ∨ ∃ sp_row sampler_row pre,
      db s !! (strds, qualified (opt_input o) mapset) = Some sp_row
      ∧ db s !! (opt_type o, qualified (opt_sample o) mapset)
        = Some sampler_row
      ∧ ds_temporal_type sampler_row = ds_temporal_type sp_row
      ∧ time_table_map_time sampler_row = Some interval
      ∧ (pre = [] ∧ db s !! output_key o mapset = None
         ∨ pre = [EvDelete (output_key o mapset)] ∧ overwrite = true
           ∧ is_Some (db s !! output_key o mapset))
      ∧ run o overwrite mapset s
        = (let* count :=
             aggregate_intervals collect_map_names aggregate_raster_maps
               o mapset (input_object o mapset sp_row)
               (sampler_object o mapset sampler_row)
               (fresh_output o mapset sp_row) in
           update_from_registered_maps
             (stds_key (fresh_output o mapset sp_row)) ;;
           close ;;
           ret PyNone)
            {| db := <[output_key o mapset :=
                         stds_row (fresh_output o mapset sp_row)]> (db s);
               log := log s ++ pre ++ [EvInsert (output_key o mapset)] |}.
Proof.
  destruct (db s !! (strds, qualified (opt_input o) mapset))
    as [sp_row|] eqn:Hin.
  2:{ left. eexists. split; [|unfold main, bind;
        by rewrite (load_datasets_no_input _ _ _ Hin)]. done. }
  destruct (db s !! (opt_type o, qualified (opt_sample o) mapset))
    as [sampler_row|] eqn:Hsm.
  2:{ left. eexists. split; [|unfold main, bind;
        by rewrite (load_datasets_no_sampler _ _ _ _ Hin Hsm)]. done. }
  destruct (decide (ds_temporal_type sampler_row = ds_temporal_type sp_row))
    as [Ht|Ht].
  2:{ left. exists TemporalTypeMismatchError. split; [done|].
      unfold main. unfold bind at 1.
      rewrite (load_datasets_found _ _ _ _ _ Hin Hsm).
      unfold bind at 1. by rewrite check_compatibility_mismatch. }
  destruct (decide (time_table_map_time sampler_row = Some interval))
    as [Hm|Hm].
  2:{ left. exists IntervalRequiredError. split; [done|].
      unfold main. unfold bind at 1.
      rewrite (load_datasets_found _ _ _ _ _ Hin Hsm).
      unfold bind at 1. by rewrite check_compatibility_no_interval. }
  rewrite (main_validated _ _ _ _ _ _ _ _ Hin Hsm Ht Hm).
  destruct (db s !! output_key o mapset) as [old|] eqn:Hout.
  - destruct overwrite.
    + right. exists sp_row, sampler_row, [EvDelete (output_key o mapset)].
      do 4 (split; [done|]). split; [right; eauto|].
      unfold bind at 1.
      rewrite (prepare_output_overwrite _ _ _ _ _ Hout).
      cbn [stds_row input_object]. rewrite insert_delete_eq.
      reflexivity.
    + left. eexists. split; [|unfold bind at 1;
        by rewrite (prepare_output_refused _ _ _ _ _ Hout)]. done.
  - right. exists sp_row, sampler_row, [].
    do 4 (split; [done|]). split; [by left|].
    unfold bind at 1. rewrite (prepare_output_absent _ _ _ _ _ Hout).
    reflexivity.
Qed.

(** The log of every run, by the way the run ends. *)
Lemma main_log o overwrite mapset s :
  (∃ e, before_output e = true
        ∧ run o overwrite mapset s = Fatal e (logged [EvClose] s))
  ∨ ∃ pre requests,
      (pre = [] ∧ db s !! output_key o mapset = None
       ∨ pre = [EvDelete (output_key o mapset)] ∧ overwrite = true
         ∧ is_Some (db s !! output_key o mapset))
      ∧ Forall (λ e, is_aggregate e = true) requests
      ∧ ((∃ i s', run o overwrite mapset s = Fatal (EmptyDatasetError i) s'
                  ∧ requests = []
                  ∧ log s' = log s ++ pre ++ [EvInsert (output_key o mapset)]
                             ++ requests ++ [EvClose])
         ∨ (∃ s', run o overwrite mapset s = Fatal AggregationComputeError s'
                  ∧ log s' = log s ++ pre ++ [EvInsert (output_key o mapset)]
                             ++ requests)
         ∨ (∃ s', run o overwrite mapset s = Fatal EmptyAggregationError s'
                  ∧ log s' = log s ++ pre ++ [EvInsert (output_key o mapset)]
                             ++ requests
                             ++ [EvUpdate (output_key o mapset)])
         ∨ (∃ s', run o overwrite mapset s = Ok PyNone s'
                  ∧ log s' = log s ++ pre ++ [EvInsert (output_key o mapset)]
                             ++ requests
                             ++ [EvUpdate (output_key o mapset); EvClose])).
Proof.
  destruct (main_cases o overwrite mapset s)
    as [?|(sp_row & sampler_row & pre & _ & _ & _ & _ & Hpre & Hrun)];
    [by left|right].
  rewrite Hrun, main_tail. clear Hrun. cbn [db log].
  destruct (order_by_start _) as [|row rows].
  - exists pre, []. split; [done|]. split; [done|]. left.
    eexists _, _. split; [done|]. split; [done|].
    cbn. by rewrite <- !app_assoc.
  - match goal with |- context [loop _ _ ?sp ?new_sp _ 0 ?s1] =>
      destruct (for_rows_log collect_map_names aggregate_raster_maps
                  o mapset sp new_sp (row :: rows) 0 s1)
        as (requests & Hl & Hall);
      destruct (loop o mapset sp new_sp (row :: rows) 0 s1)
        as [n s2|e s2] eqn:Hloop
    end; cbn [final_state log] in Hl.
    + exists pre, requests. split; [done|]. split; [done|].
      change (stds_key (fresh_output o mapset sp_row))
        with (output_key o mapset).
      destruct (stored_maps (db s2) (output_key o mapset)).
      * right; right; left. eexists. split; [done|].
        cbn. rewrite Hl. by rewrite <- !app_assoc.
      * right; right; right. eexists. split; [done|].
        cbn. rewrite Hl. by rewrite <- !app_assoc.
    + apply for_rows_fatal in Hloop as ->.
      exists pre, requests. split; [done|]. split; [done|].
      right; left. eexists. split; [done|].
      rewrite Hl. by rewrite <- !app_assoc.
Qed.

(** *** Failures and the database *)

(** X2: a run that ends with one of the errors raised before the output is
    touched (dataset not found, temporal types differ, no intervals, output
    already there) leaves the database as it was and has logged nothing
    but the closing of the connection. *)
Theorem X2_failure_before_output_changes_nothing o overwrite mapset s e s' :
  run o overwrite mapset s = Fatal e s' →
  before_output e = true →
  s' = logged [EvClose] s.
Proof.
  intros Hrun He.
  destruct (main_cases o overwrite mapset s)
    as [(e0 & _ & Hcase)
       |(sp_row & sampler_row & pre & _ & _ & _ & _ & _ & Hcase)];
    rewrite Hcase in Hrun.
  - by injection Hrun as _ <-.
  - rewrite main_tail in Hrun.
    destruct (order_by_start _) as [|row rows].
    + injection Hrun as <- _. discriminate.
    + destruct (loop _ _ _ _ (row :: rows) 0 _) as [n s2|e2 s2] eqn:Hloop.
      * destruct (stored_maps (db s2) _); [|discriminate].
        injection Hrun as <- _. discriminate.
      * injection Hrun as <- _. apply for_rows_fatal in Hloop as ->.
        discriminate.
Qed.

(** *** The calls of a run *)

(** X3: whatever the run, [main] closes the connection at most once and
    as its last call: the calls it adds to the log are calls other than
    the closing, followed by one closing, except in a run that ended
    inside a call of the temporal library (the aggregation service, or the
    update of an output without registered maps), where [main] itself
    closes nothing. *)
Theorem X3_connection_closed_once_at_the_end o overwrite mapset s :
  ∃ l, Forall (λ e, is_close e = false) l
       ∧ log (final_state (run o overwrite mapset s))
         = log s ++ l
           ++ (if ended_in_library (run o overwrite mapset s)
               then [] else [EvClose]).
Proof.
  assert (Hagg : ∀ l, Forall (λ e, is_aggregate e = true) l →
                      Forall (λ e, is_close e = false) l).
  { intros l Hl. eapply Forall_impl; [exact Hl|]. by intros []. }
  destruct (main_log o overwrite mapset s)
    as [(e & He & ->)
       |(pre & requests & Hpre & Hall
         & [(i & s' & -> & -> & Hl)
           |[(s' & -> & Hl)|[(s' & -> & Hl)|(s' & -> & Hl)]]])].
  - exists []. split; [done|]. by destruct e.
  - exists (pre ++ [EvInsert (output_key o mapset)]). split.
    + apply Forall_app. split; [|by repeat constructor].
      by destruct Hpre as [[-> _]|[-> _]]; repeat constructor.
    + cbn. rewrite Hl. by rewrite <- !app_assoc.
  - exists (pre ++ [EvInsert (output_key o mapset)] ++ requests). split.
    + apply Forall_app. split.
      * by destruct Hpre as [[-> _]|[-> _]]; repeat constructor.
      * constructor; [done|]. by apply Hagg.
    + cbn. rewrite Hl. by rewrite <- !app_assoc, app_nil_r.
  - exists (pre ++ [EvInsert (output_key o mapset)] ++ requests
            ++ [EvUpdate (output_key o mapset)]). split.
    + apply Forall_app. split.
      * by destruct Hpre as [[-> _]|[-> _]]; repeat constructor.
      * constructor; [done|]. apply Forall_app. split; [by apply Hagg|].
        by repeat constructor.
    + cbn. rewrite Hl. rewrite <- ?app_assoc. cbn [app].
      rewrite <- ?app_assoc. by rewrite app_nil_r.
  - exists (pre ++ [EvInsert (output_key o mapset)] ++ requests
            ++ [EvUpdate (output_key o mapset)]). split.
    + apply Forall_app. split.
      * by destruct Hpre as [[-> _]|[-> _]]; repeat constructor.
      * constructor; [done|]. apply Forall_app. split; [by apply Hagg|].
        by repeat constructor.
    + cbn. rewrite Hl. rewrite <- ?app_assoc. cbn [app].
      rewrite <- ?app_assoc. reflexivity.
Qed.

(** X4: the only dataset [main] ever deletes is the one stored under the
    output id, and it deletes it only when overwriting is permitted. *)
Theorem X4_only_the_existing_output_is_deleted o overwrite mapset s :
  ∃ l, log (final_state (run o overwrite mapset s)) = log s ++ l
       ∧ ∀ k, EvDelete k ∈ l →
              k = output_key o mapset ∧ overwrite = true
              ∧ is_Some (db s !! output_key o mapset).
Proof.
  assert (Hagg : ∀ l k, Forall (λ e, is_aggregate e = true) l →
                        EvDelete k ∈ l → False).
  { intros l k Hall Hk. rewrite Forall_forall in Hall.
    by specialize (Hall _ Hk). }
  assert (Hpre_in : ∀ pre k,
    (pre = [] ∧ db s !! output_key o mapset = None
     ∨ pre = [EvDelete (output_key o mapset)] ∧ overwrite = true
       ∧ is_Some (db s !! output_key o mapset)) →
    EvDelete k ∈ pre →
    k = output_key o mapset ∧ overwrite = true
    ∧ is_Some (db s !! output_key o mapset)).
  { intros pre k [[-> _]|(-> & -> & Hsome)] Hk.
    - by apply elem_of_nil in Hk.
    - apply list_elem_of_singleton in Hk. by injection Hk as ->. }
  destruct (main_log o overwrite mapset s)
    as [(e & He & ->)
       |(pre & requests & Hpre & Hall
         & [(i & s' & -> & -> & Hl)
           |[(s' & -> & Hl)|[(s' & -> & Hl)|(s' & -> & Hl)]]])];
    cbn [final_state].
  - exists [EvClose]. split; [done|]. intros k Hk.
    apply list_elem_of_singleton in Hk. discriminate.
  - eexists. split; [exact Hl|]. intros k Hk.
    apply elem_of_app in Hk as [Hk|Hk]; [by eapply Hpre_in|].
    apply elem_of_cons in Hk as [Hk|Hk]; [discriminate|].
    apply list_elem_of_singleton in Hk. discriminate.
  - eexists. split; [exact Hl|]. intros k Hk.
    apply elem_of_app in Hk as [Hk|Hk]; [by eapply Hpre_in|].
    apply elem_of_cons in Hk as [Hk|Hk]; [discriminate|].
    by destruct (Hagg _ _ Hall Hk).
  - eexists. split; [exact Hl|]. intros k Hk.
    apply elem_of_app in Hk as [Hk|Hk]; [by eapply Hpre_in|].
    apply elem_of_cons in Hk as [Hk|Hk]; [discriminate|].
    apply elem_of_app in Hk as [Hk|Hk]; [by destruct (Hagg _ _ Hall Hk)|].
    apply list_elem_of_singleton in Hk. discriminate.
  - eexists. split; [exact Hl|]. intros k Hk.
    apply elem_of_app in Hk as [Hk|Hk]; [by eapply Hpre_in|].
    apply elem_of_cons in Hk as [Hk|Hk]; [discriminate|].
    apply elem_of_app in Hk as [Hk|Hk]; [by destruct (Hagg _ _ Hall Hk)|].
    apply elem_of_cons in Hk as [Hk|Hk]; [discriminate|].
    apply list_elem_of_singleton in Hk. discriminate.
Qed.

(** X5: the calls of a run that completes are, in this order: the deletion
    of the stored output if there was one (then overwriting was
    permitted), the insertion of the output, the aggregation requests, one
    update of the output, the closing of the connection. *)
Theorem X5_calls_of_a_completed_run o overwrite mapset s v s' :
  run o overwrite mapset s = Ok v s' →
  ∃ pre requests,
    log s' = log s ++ pre ++ [EvInsert (output_key o mapset)] ++ requests
             ++ [EvUpdate (output_key o mapset); EvClose]
    ∧ Forall (λ e, is_aggregate e = true) requests
    ∧ (pre = [] ∧ db s !! output_key o mapset = None
       ∨ pre = [EvDelete (output_key o mapset)] ∧ overwrite = true
         ∧ is_Some (db s !! output_key o mapset)).
Proof.
  intros Hrun.
  destruct (main_log o overwrite mapset s)
    as [(e & He & Hcase)
       |(pre & requests & Hpre & Hall
         & [(i & s1 & Hcase & _)
           |[(s1 & Hcase & _)|[(s1 & Hcase & _)|(s1 & Hcase & Hl)]]])];
    rewrite Hcase in Hrun; try discriminate.
  injection Hrun as _ <-. by exists pre, requests.
Qed.

(** *** The sequence indices of the requests *)

(** X6: the requests the loop submits carry strictly increasing sequence
    indices, all above the count the loop starts from and none above that
    count plus the number of rows: no two requests of a run share an
    index, and there is at most one request per row. *)
Theorem X6_request_indices_increase o mapset sp new_sp rows count s :
  ∃ l, log (final_state (loop o mapset sp new_sp rows count s)) = log s ++ l
       ∧ StronglySorted Z.lt (request_counts l)
       ∧ Forall (λ i, count < i ≤ count + Z.of_nat (length rows))
           (request_counts l).
Proof.
  revert count s. induction rows as [|row rest IH]; intros count s.
  - exists []. cbn. rewrite app_nil_r. repeat split; constructor.
  - assert (Hshift : ∀ l,
      Forall (λ i, count + 1 < i ≤ count + 1 + Z.of_nat (length rest)) l →
      Forall (λ i, count < i ≤ count + Z.of_nat (length (row :: rest))) l).
    { intros l Hl. eapply Forall_impl; [exact Hl|].
      intros i Hi. cbn beta in Hi |- *. cbn [length].
      rewrite Nat2Z.inj_succ. lia. }
    cbn [for_rows]. unfold bind at 1.
    destruct (truthy (collect_map_names sp (db s) (start_time row)
                        (end_time row) (opt_sampling o))) eqn:Htruth.
    + rewrite loop_body_submit by done.
      unfold bind, call_aggregate_raster_maps, ret.
      match goal with |- context [aggregate_raster_maps ?rq (db s)] =>
        destruct (aggregate_raster_maps rq (db s)) as [c'|];
        [ match goal with |- context [loop _ _ _ _ rest _ ?s1] =>
            destruct (IH (count + 1) s1) as (l & Hl & Hsorted & Hrange)
          end;
          exists (EvAggregate rq :: l)
        | exists [EvAggregate rq] ]
      end.
      * split; [rewrite Hl; cbn; by rewrite <- app_assoc|].
        cbn. split.
        -- constructor; [done|].
           eapply Forall_impl; [exact Hrange|]. intros i Hi. cbn in Hi. lia.
        -- constructor; [lia|by apply Hshift].
      * split; [done|]. cbn. split; repeat constructor; lia.
    + rewrite loop_body_skip by done.
      destruct (IH (count + 1) s) as (l & Hl & Hsorted & Hrange).
      exists l. split; [done|]. split; [done|]. by apply Hshift.
Qed.

(** *** When a run completes *)

Lemma order_by_start_empty (l : list MapEntry) :
  order_by_start l = [] → l = [].
Proof.
  intros H. apply Permutation_nil_r. rewrite <- H.
  symmetry. apply order_by_start_perm.
Qed.

(** X7: a run completes only if the input and the sampler were stored, had
    the same temporal type, the sampler had map time "interval" and at
    least one registered map, the output id was free or overwriting was
    permitted, and the sampler was not the dataset stored under the output
    id. *)
Theorem X7_completed_run_had_valid_input o overwrite mapset s v s' :
  run o overwrite mapset s = Ok v s' →
  ∃ sp_row sampler_row,
    db s !! (strds, qualified (opt_input o) mapset) = Some sp_row
    ∧ db s !! (opt_type o, qualified (opt_sample o) mapset)
      = Some sampler_row
    ∧ ds_temporal_type sampler_row = ds_temporal_type sp_row
    ∧ time_table_map_time sampler_row = Some interval
    ∧ (db s !! output_key o mapset = None ∨ overwrite = true)
    ∧ (opt_type o, qualified (opt_sample o) mapset) ≠ output_key o mapset
    ∧ registered_maps sampler_row ≠ [].
Proof.
  intros Hrun.
  destruct (main_cases o overwrite mapset s)
    as [(e0 & _ & Hcase)
       |(sp_row & sampler_row & pre & Hin & Hsm & Ht & Hm & Hpre & Hcase)];
    rewrite Hcase in Hrun; [discriminate|].
  rewrite main_tail in Hrun. cbn [db] in Hrun.
  exists sp_row, sampler_row. do 4 (split; [done|]).
  split; [destruct Hpre as [[_ ?]|(_ & ? & _)]; by eauto|].
  unfold stored_maps, stds_key, sampler_object in Hrun. cbn in Hrun.
  split.
  - intros Heq. rewrite Heq, lookup_insert_eq in Hrun. done.
  - intros Hempty.
    destruct (decide (output_key o mapset
                      = (opt_type o, qualified (opt_sample o) mapset)))
      as [Heq|Hne].
    + rewrite <- Heq, lookup_insert_eq in Hrun. done.
    + rewrite lookup_insert_ne, Hsm, Hempty in Hrun by done. done.
Qed.

(** The output can be prepared when its id is free or overwriting is
    permitted; the sampler's maps are then still the stored ones, unless
    the sampler is stored under the output id. *)
Lemma prepare_output_succeeds o overwrite mapset sp s :
  db s !! output_key o mapset = None ∨ overwrite = true →
  ∃ pre,
    prepare_output o overwrite mapset sp s
    = Ok (fresh_output o mapset (stds_row sp))
        {| db := <[output_key o mapset :=
                     stds_row (fresh_output o mapset (stds_row sp))]> (db s);
           log := log s ++ pre ++ [EvInsert (output_key o mapset)] |}.
Proof.
  intros Hout.
  destruct (db s !! output_key o mapset) as [old|] eqn:Hk.
  - destruct Hout as [?| ->]; [done|].
    exists [EvDelete (output_key o mapset)].
    rewrite (prepare_output_overwrite _ _ _ _ _ Hk).
    by rewrite insert_delete_eq.
  - exists []. by rewrite (prepare_output_absent _ _ _ _ _ Hk).
Qed.

(** X8: with an aggregation service that answers every request, no check
    of [main] and no request ends a run in which the input and the sampler
    are stored with the same temporal type, the sampler has map time
    "interval" and a registered map, is not the dataset stored under the
    output id, and the output id is free or overwriting is permitted: the
    output is prepared, the loop over the rows of the sampler completes,
    and the run goes on with the update of the output in the state the
    loop left; it completes when the output then holds a map. *)
Theorem X8_valid_input_reaches_update
    o overwrite mapset s sp_row sampler_row :
  (∀ rq c, is_Some (aggregate_raster_maps rq c)) →
  db s !! (strds, qualified (opt_input o) mapset) = Some sp_row →
  db s !! (opt_type o, qualified (opt_sample o) mapset) = Some sampler_row →
  ds_temporal_type sampler_row = ds_temporal_type sp_row →
  time_table_map_time sampler_row = Some interval →
  db s !! output_key o mapset = None ∨ overwrite = true →
  (opt_type o, qualified (opt_sample o) mapset) ≠ output_key o mapset →
  registered_maps sampler_row ≠ [] →
  ∃ s1 n s2,
    prepare_output o overwrite mapset (input_object o mapset sp_row) s
    = Ok (fresh_output o mapset sp_row) s1
    ∧ loop o mapset (input_object o mapset sp_row)
        (fresh_output o mapset sp_row)
        (order_by_start (registered_maps sampler_row)) 0 s1
      = Ok n s2
    ∧ run o overwrite mapset s
      = (update_from_registered_maps (output_key o mapset) ;;
         close ;;
         ret PyNone) s2
    ∧ (stored_maps (db s2) (output_key o mapset) ≠ [] →
       ∃ s', run o overwrite mapset s = Ok PyNone s').
Proof.
  intros Hsvc Hin Hsm Ht Hm Hout Hne Hrows.
  destruct (prepare_output_succeeds o overwrite mapset
              (input_object o mapset sp_row) s Hout) as [pre Hp].
  cbn [stds_row input_object] in Hp.
  destruct (for_rows_completes o mapset (input_object o mapset sp_row)
              (fresh_output o mapset sp_row)
              (order_by_start (registered_maps sampler_row)) 0
              {| db := <[output_key o mapset :=
                           stds_row (fresh_output o mapset sp_row)]> (db s);
                 log := log s ++ pre ++ [EvInsert (output_key o mapset)] |}
              Hsvc) as (n & s2 & Hloop).
  assert (Hrun : run o overwrite mapset s
    = (update_from_registered_maps (output_key o mapset) ;;
       close ;;
       ret PyNone) s2).
  { rewrite (main_validated _ _ _ _ _ _ _ _ Hin Hsm Ht Hm).
    unfold bind at 1. rewrite Hp. unfold bind at 1.
    rewrite aggregate_intervals_rows. cbn [db].
    unfold stored_maps, stds_key, sampler_object. cbn [stds_kind stds_id].
    rewrite lookup_insert_ne, Hsm by done.
    destruct (order_by_start (registered_maps sampler_row))
      as [|row rows] eqn:Hsorted;
      [by apply order_by_start_empty in Hsorted|].
    by rewrite Hloop. }
  eexists _, n, s2. split; [exact Hp|]. split; [exact Hloop|].
  split; [exact Hrun|].
  intros Hmember. rewrite Hrun, update_and_close.
  destruct (stored_maps (db s2) (output_key o mapset)); [done|].
  by eexists.
Qed.

(** X9: when no interval of the sampler has a match in the database as it
    is once the output is prepared, a run that passes the checks submits
    no request: it reaches the update of the output with nothing but the
    insertion of the output done, and the output holds no map.  No check
    of [main] stands between the loop and the update; the update of the
    memberless output then ends the run with [EmptyAggregationError], the
    empty output left in the database and the connection not closed by
    [main]. *)
Theorem X9_no_match_reaches_update_with_empty_output
    o overwrite mapset s sp_row sampler_row :
  db s !! (strds, qualified (opt_input o) mapset) = Some sp_row →
  db s !! (opt_type o, qualified (opt_sample o) mapset) = Some sampler_row →
  ds_temporal_type sampler_row = ds_temporal_type sp_row →
  time_table_map_time sampler_row = Some interval →
  db s !! output_key o mapset = None ∨ overwrite = true →
  (opt_type o, qualified (opt_sample o) mapset) ≠ output_key o mapset →
  registered_maps sampler_row ≠ [] →
  let prepared :=
    <[output_key o mapset := stds_row (fresh_output o mapset sp_row)]>
      (db s) in
  Forall (λ row, truthy (collect_map_names (input_object o mapset sp_row)
                           prepared (start_time row) (end_time row)
                           (opt_sampling o)) = false)
    (registered_maps sampler_row) →
  ∃ pre,
    run o overwrite mapset s
    = (update_from_registered_maps (output_key o mapset) ;;
       close ;;
       ret PyNone)
        {| db := prepared;
           log := log s ++ pre ++ [EvInsert (output_key o mapset)] |}
    ∧ stored_maps prepared (output_key o mapset) = []
    ∧ run o overwrite mapset s
      = Fatal EmptyAggregationError
          {| db := prepared;
             log := log s ++ pre
                    ++ [EvInsert (output_key o mapset);
                        EvUpdate (output_key o mapset)] |}.
Proof.
  intros Hin Hsm Ht Hm Hout Hne Hrows prepared Hskip.
  assert (Hstored : stored_maps prepared (output_key o mapset) = []).
  { unfold stored_maps, prepared. by rewrite lookup_insert_eq. }
  destruct (prepare_output_succeeds o overwrite mapset
              (input_object o mapset sp_row) s Hout) as [pre Hp].
  cbn [stds_row input_object] in Hp. fold prepared in Hp.
  assert (Hrun : run o overwrite mapset s
    = (update_from_registered_maps (output_key o mapset) ;;
       close ;;
       ret PyNone)
        {| db := prepared;
           log := log s ++ pre ++ [EvInsert (output_key o mapset)] |}).
  { rewrite (main_validated _ _ _ _ _ _ _ _ Hin Hsm Ht Hm).
    unfold bind at 1. rewrite Hp. unfold bind at 1.
    rewrite aggregate_intervals_rows. cbn [db].
    unfold stored_maps at 1, stds_key, sampler_object.
    cbn [stds_kind stds_id].
    unfold prepared at 1. rewrite lookup_insert_ne, Hsm by done.
    destruct (order_by_start (registered_maps sampler_row))
      as [|row rows] eqn:Hsorted;
      [by apply order_by_start_empty in Hsorted|].
    rewrite for_rows_all_skipped.
    - reflexivity.
    - cbn [db]. rewrite <- Hsorted. by rewrite order_by_start_perm. }
  exists pre. split; [exact Hrun|]. split; [exact Hstored|].
  rewrite Hrun, update_and_close. cbn [db]. rewrite Hstored.
  unfold logged. cbn. by rewrite <- !app_assoc.
Qed.

(** *** An output named like the input or like the sampler *)

(** X10: [main] does not compare the output id with the input id.  When
    they are the same, a run that passes the checks is refused without
    overwrite (the input occupies the id); with overwrite the stored input
    is replaced by the fresh output row, so the database holds no map under
    the input id when the loop starts. *)
Theorem X10_output_named_like_input o mapset s sp_row sampler_row :
  db s !! (strds, qualified (opt_input o) mapset) = Some sp_row →
  db s !! (opt_type o, qualified (opt_sample o) mapset) = Some sampler_row →
  ds_temporal_type sampler_row = ds_temporal_type sp_row →
  time_table_map_time sampler_row = Some interval →
  qualified (opt_output o) mapset = qualified (opt_input o) mapset →
  run o false mapset s
  = Fatal (AlreadyExistsError (qualified (opt_input o) mapset))
      (logged [EvClose] s)
  ∧ ∃ s1,
      prepare_output o true mapset (input_object o mapset sp_row) s
      = Ok (fresh_output o mapset sp_row) s1
      ∧ stored_maps (db s1) (strds, qualified (opt_input o) mapset) = []
      ∧ run o true mapset s
        = (let* count :=
             aggregate_intervals collect_map_names aggregate_raster_maps
               o mapset (input_object o mapset sp_row)
               (sampler_object o mapset sampler_row)
               (fresh_output o mapset sp_row) in
           update_from_registered_maps
             (stds_key (fresh_output o mapset sp_row)) ;;
           close ;;
           ret PyNone) s1.
Proof.
  intros Hin Hsm Ht Hm Hsame.
  assert (Hout : db s !! output_key o mapset = Some sp_row).
  { unfold output_key. by rewrite Hsame. }
  split.
  - rewrite (main_validated _ _ _ _ _ _ _ _ Hin Hsm Ht Hm).
    unfold bind at 1. rewrite (prepare_output_refused _ _ _ _ _ Hout).
    by rewrite Hsame.
  - eexists. split; [exact (prepare_output_overwrite _ _ _ _ _ Hout)|].
    split.
    + unfold stored_maps. cbn [db]. rewrite <- Hsame.
      fold (output_key o mapset). by rewrite lookup_insert_eq.
    + rewrite (main_validated _ _ _ _ _ _ _ _ Hin Hsm Ht Hm).
      unfold bind at 1.
      by rewrite (prepare_output_overwrite _ _ _ _ _ Hout).
Qed.

(** X11: [main] reads the rows of the sampler after it has inserted the
    output.  When the sampler is the space time raster dataset stored
    under the output id and overwriting is permitted, the sampler has been
    replaced by the empty output by then: the run ends with the message
    that the dataset is empty, whatever maps the sampler held. *)
Theorem X11_output_named_like_sampler o mapset s sp_row sampler_row :
  db s !! (strds, qualified (opt_input o) mapset) = Some sp_row →
  db s !! (opt_type o, qualified (opt_sample o) mapset) = Some sampler_row →
  ds_temporal_type sampler_row = ds_temporal_type sp_row →
  time_table_map_time sampler_row = Some interval →
  (opt_type o, qualified (opt_sample o) mapset) = output_key o mapset →
  run o true mapset s
  = Fatal (EmptyDatasetError (qualified (opt_input o) mapset))
      {| db := <[output_key o mapset :=
                   stds_row (fresh_output o mapset sp_row)]> (db s);
         log := log s ++ [EvDelete (output_key o mapset);
                          EvInsert (output_key o mapset); EvClose] |}.
Proof.
  intros Hin Hsm Ht Hm Hsame.
  assert (Hout : db s !! output_key o mapset = Some sampler_row)
    by by rewrite <- Hsame.
  rewrite (main_validated _ _ _ _ _ _ _ _ Hin Hsm Ht Hm).
  unfold bind at 1. rewrite (prepare_output_overwrite _ _ _ _ _ Hout).
  rewrite main_tail. cbn [db].
  unfold stored_maps, stds_key, sampler_object. cbn [stds_kind stds_id].
  rewrite Hsame, lookup_insert_eq. cbn.
  unfold logged. cbn. rewrite insert_delete_eq.
  by rewrite <- !app_assoc.
Qed.

(** *** A failure of the service inside the loop *)

(** X12: when the aggregation service fails on the request for a row, the
    loop ends there: the database is the one the rows before it left (the
    maps registered for them stay, nothing is rolled back), the failed
    request is the last call logged, and the rows after it are never
    looked at. *)
Theorem X12_service_failure_keeps_earlier_effects
    o mapset sp new_sp rows1 row rows2 count s n s1 :
  loop o mapset sp new_sp rows1 count s = Ok n s1 →
  truthy (collect_map_names sp (db s1) (start_time row) (end_time row)
            (opt_sampling o)) = true →
  aggregate_raster_maps
    (request_for o mapset new_sp
       (collect_map_names sp (db s1) (start_time row) (end_time row)
          (opt_sampling o)) (n + 1) row) (db s1) = None →
  loop o mapset sp new_sp (rows1 ++ row :: rows2) count s
  = Fatal AggregationComputeError
      {| db := db s1;
         log := log s1
                ++ [EvAggregate
                      (request_for o mapset new_sp
                         (collect_map_names sp (db s1) (start_time row)
                            (end_time row) (opt_sampling o)) (n + 1) row)] |}.
Proof.
  intros Hfirst Htruth Hfail.
  rewrite for_rows_app. unfold bind at 1. rewrite Hfirst.
  cbn [for_rows]. unfold bind at 1.
  rewrite loop_body_submit by done.
  unfold bind, call_aggregate_raster_maps. by rewrite Hfail.
Qed.

(** *** The datasets a run leaves alone *)

Lemma for_rows_frame o mapset sp new_sp rows count s k :
  (∀ rq c c', aggregate_raster_maps rq c = Some c' →
              ∀ j, j ≠ stds_key (rq_dataset rq) → c' !! j = c !! j) →
  k ≠ stds_key new_sp →
  db (final_state (loop o mapset sp new_sp rows count s)) !! k = db s !! k.
Proof.
  intros Hframe Hk. revert count s.
  induction rows as [|row rest IH]; intros count s; [done|].
  cbn [for_rows]. unfold bind at 1.
  destruct (truthy (collect_map_names sp (db s) (start_time row)
                      (end_time row) (opt_sampling o))) eqn:Htruth.
  - rewrite loop_body_submit by done.
    unfold bind, call_aggregate_raster_maps, ret.
    match goal with |- context [aggregate_raster_maps ?rq (db s)] =>
      destruct (aggregate_raster_maps rq (db s)) as [c'|] eqn:Hsvc
    end; [|done].
    rewrite IH. cbn [db]. by apply (Hframe _ _ _ Hsvc).
  - rewrite loop_body_skip by done. apply IH.
Qed.

(** X13: the calls of [main] itself change nothing but the row stored
    under the output id.  With an aggregation service that changes only
    the row of the dataset it is handed, every other dataset (the input
    and the sampler among them, unless one of them is stored under the
    output id) is the same after the run as before, however the run
    ends. *)
Theorem X13_other_datasets_untouched o overwrite mapset s k :
  (∀ rq c c', aggregate_raster_maps rq c = Some c' →
              ∀ j, j ≠ stds_key (rq_dataset rq) → c' !! j = c !! j) →
  k ≠ output_key o mapset →
  db (final_state (run o overwrite mapset s)) !! k = db s !! k.
Proof.
  intros Hframe Hk.
  destruct (main_cases o overwrite mapset s)
    as [(e0 & _ & ->)
       |(sp_row & sampler_row & pre & _ & _ & _ & _ & _ & ->)]; [done|].
  rewrite main_tail. cbn [db].
  destruct (order_by_start _) as [|row rows].
  - cbn. by rewrite lookup_insert_ne.
  - match goal with |- context [loop _ _ ?sp ?new_sp _ 0 ?s1] =>
      pose proof (for_rows_frame o mapset sp new_sp (row :: rows) 0 s1 k
                    Hframe Hk) as Hloop;
      destruct (loop o mapset sp new_sp (row :: rows) 0 s1) as [n s2|e s2]
    end; cbn [final_state db] in Hloop |- *.
    + destruct (stored_maps (db s2) _); cbn [final_state db logged].
      * rewrite Hloop. by rewrite lookup_insert_ne.
      * rewrite lookup_alter_ne by done. rewrite Hloop.
        by rewrite lookup_insert_ne.
    + rewrite Hloop. by rewrite lookup_insert_ne.
Qed.

End Further.

(** ** Sample runs for the further properties *)

Import MoreSamples.

Lemma computes_answers (rq : AggregationRequest)
    (c : gmap (stds_type * string) Dataset) :
  is_Some (aggregate_raster_maps_spec computes rq c).
Proof. unfold aggregate_raster_maps_spec, computes. cbn. eauto. Qed.

(** The output id is taken and overwriting is not permitted: the run is
    refused and its final state is the first one with the closing
    logged. *)
Lemma X2_witness_refused_run :
  let s := start_state (taken (catalog one_window)) in
  let r := main_spec computes (opts [Overlap]) false "user" s in
  r = Fatal (AlreadyExistsError "out@user") (final_state r)
  ∧ final_state r = logged [EvClose] s.
Proof.
  intros s r.
  assert (Hrun : r = Fatal (AlreadyExistsError "out@user") (final_state r))
    by (vm_compute; reflexivity).
  split; [exact Hrun|].
  exact (X2_failure_before_output_changes_nothing
           collect_map_names_spec (aggregate_raster_maps_spec computes)
           (opts [Overlap]) false "user" s _ _ Hrun eq_refl).
Defined.

(** A run that overwrites an earlier output and completes. *)
Lemma X5_witness_overwriting_run :
  let o := opts [Overlap] in
  let s := start_state (taken (catalog two_windows)) in
  let r := main_spec computes o true "user" s in
  r = Ok PyNone (final_state r)
  ∧ ∃ pre requests,
      log (final_state r)
      = log s ++ pre ++ [EvInsert (output_key o "user")] ++ requests
        ++ [EvUpdate (output_key o "user"); EvClose]
      ∧ Forall (λ e, is_aggregate e = true) requests
      ∧ (pre = [] ∧ db s !! output_key o "user" = None
         ∨ pre = [EvDelete (output_key o "user")] ∧ true = true
           ∧ is_Some (db s !! output_key o "user")).
Proof.
  intros o s r.
  assert (Hrun : r = Ok PyNone (final_state r)) by (vm_compute; reflexivity).
  split; [exact Hrun|].
  exact (X5_calls_of_a_completed_run
           collect_map_names_spec (aggregate_raster_maps_spec computes)
           o true "user" s _ _ Hrun).
Defined.

Lemma X7_witness_completed_run :
  let o := opts [Overlap] in
  let s := start_state (catalog two_windows) in
  let r := main_spec computes o false "user" s in
  r = Ok PyNone (final_state r)
  ∧ ∃ sp_row sampler_row,
      db s !! (strds, qualified (opt_input o) "user") = Some sp_row
      ∧ db s !! (opt_type o, qualified (opt_sample o) "user")
        = Some sampler_row
      ∧ ds_temporal_type sampler_row = ds_temporal_type sp_row
      ∧ time_table_map_time sampler_row = Some interval
      ∧ (db s !! output_key o "user" = None ∨ false = true)
      ∧ (opt_type o, qualified (opt_sample o) "user") ≠ output_key o "user"
      ∧ registered_maps sampler_row ≠ [].
Proof.
  intros o s r.
  assert (Hrun : r = Ok PyNone (final_state r)) by (vm_compute; reflexivity).
  split; [exact Hrun|].
  exact (X7_completed_run_had_valid_input
           collect_map_names_spec (aggregate_raster_maps_spec computes)
           o false "user" s _ _ Hrun).
Defined.

Lemma X8_witness_valid_input :
  let o := opts [Overlap] in
  let s := start_state (catalog two_windows) in
  ∃ s1 n s2,
    prepare_output o false "user" (input_object o "user" source) s
    = Ok (fresh_output o "user" source) s1
    ∧ for_rows collect_map_names_spec (aggregate_raster_maps_spec computes)
        o "user" (input_object o "user" source)
        (fresh_output o "user" source)
        (order_by_start (registered_maps two_windows)) 0 s1
      = Ok n s2
    ∧ main_spec computes o false "user" s
      = (update_from_registered_maps (output_key o "user") ;;
         close ;;
         ret PyNone) s2
    ∧ (stored_maps (db s2) (output_key o "user") ≠ [] →
       ∃ s', main_spec computes o false "user" s = Ok PyNone s').
Proof.
  intros o s.
  apply (X8_valid_input_reaches_update
           collect_map_names_spec (aggregate_raster_maps_spec computes)
           o false "user" s source two_windows computes_answers
           eq_refl eq_refl eq_refl eq_refl (or_introl eq_refl)).
  - discriminate.
  - discriminate.
Defined.

(** No source map overlaps the intervals [100,110) and [120,130): the run
    ends in the update of an output without maps. *)
Lemma X9_witness_no_match :
  let o := opts [Overlap] in
  let s := start_state (catalog far_windows) in
  let prepared :=
    <[output_key o "user" := stds_row (fresh_output o "user" source)]>
      (db s) in
  ∃ pre,
    main_spec computes o false "user" s
    = (update_from_registered_maps (output_key o "user") ;;
       close ;;
       ret PyNone)
        {| db := prepared;
           log := log s ++ pre ++ [EvInsert (output_key o "user")] |}
    ∧ stored_maps prepared (output_key o "user") = []
    ∧ main_spec computes o false "user" s
      = Fatal EmptyAggregationError
          {| db := prepared;
             log := log s ++ pre
                    ++ [EvInsert (output_key o "user");
                        EvUpdate (output_key o "user")] |}.
Proof.
  intros o s prepared.
  apply (X9_no_match_reaches_update_with_empty_output
           collect_map_names_spec (aggregate_raster_maps_spec computes)
           o false "user" s source far_windows
           eq_refl eq_refl eq_refl eq_refl (or_introl eq_refl)).
  - discriminate.
  - discriminate.
  - repeat constructor.
Defined.

(** The output is named ["src@user"], like the input. *)
Lemma X10_witness_output_onto_input :
  let o := opts_onto_input in
  let s := start_state (catalog one_window) in
  main_spec computes o false "user" s
  = Fatal (AlreadyExistsError "src@user") (logged [EvClose] s)
  ∧ ∃ s1,
      prepare_output o true "user" (input_object o "user" source) s
      = Ok (fresh_output o "user" source) s1
      ∧ stored_maps (db s1) (strds, "src@user") = []
      ∧ stored_maps (db s) (strds, "src@user") = registered_maps source.
Proof.
  intros o s.
  destruct (X10_output_named_like_input
              collect_map_names_spec (aggregate_raster_maps_spec computes)
              o "user" s source one_window
              eq_refl eq_refl eq_refl eq_refl eq_refl)
    as (Hrefused & s1 & Hprep & Hgone & _).
  split; [exact Hrefused|].
  exists s1. split; [exact Hprep|]. split; [exact Hgone|reflexivity].
Defined.

(** The output is named ["smp"], like the sampler, which holds the
    interval [0,20). *)
Lemma X11_witness_output_onto_sampler :
  let o := opts_onto_sampler in
  let s := start_state (catalog one_window) in
  registered_maps one_window = [window "w1" 0 20]
  ∧ main_spec computes o true "user" s
    = Fatal (EmptyDatasetError "src@user")
        {| db := <[output_key o "user" :=
                     stds_row (fresh_output o "user" source)]> (db s);
           log := log s ++ [EvDelete (output_key o "user");
                            EvInsert (output_key o "user"); EvClose] |}.
Proof.
  intros o s. split; [reflexivity|].
  exact (X11_output_named_like_sampler
           collect_map_names_spec (aggregate_raster_maps_spec computes)
           o "user" s source one_window
           eq_refl eq_refl eq_refl eq_refl eq_refl).
Defined.

(** The reducer fails on the second interval, which takes the single map
    C: the map of the first interval stays registered. *)
Lemma X12_witness_second_request_fails :
  let o := opts [Overlap] in
  let sp := input_object o "user" source in
  let new_sp := fresh_output o "user" source in
  let s :=
    start_state (<[output_key o "user" := stds_row new_sp]>
                   (catalog split_windows)) in
  let run_loop :=
    for_rows collect_map_names_spec
      (aggregate_raster_maps_spec fails_on_single) o "user" sp new_sp in
  let s1 := final_state (run_loop [window "w1" 0 20] 0 s) in
  stored_maps (db s1) (output_key o "user") = [window "base_1" 0 20]
  ∧ ∃ rq,
      run_loop ([window "w1" 0 20]
                ++ window "w2" 20 30 :: [window "w3" 40 50]) 0 s
      = Fatal AggregationComputeError
          {| db := db s1; log := log s1 ++ [EvAggregate rq] |}
      ∧ rq_count rq = 2 ∧ rq_inputs rq = ["C"].
Proof.
  intros o sp new_sp s run_loop s1.
  split; [vm_compute; reflexivity|].
  assert (Hfirst : run_loop [window "w1" 0 20] 0 s = Ok 1 s1)
    by (vm_compute; reflexivity).
  assert (Htruth :
    truthy (collect_map_names_spec sp (db s1) 20 (Some 30) (opt_sampling o))
    = true) by (vm_compute; reflexivity).
  assert (Hfail :
    aggregate_raster_maps_spec fails_on_single
      (request_for o "user" new_sp
         (collect_map_names_spec sp (db s1) 20 (Some 30) (opt_sampling o))
         (1 + 1) (window "w2" 20 30)) (db s1) = None)
    by (vm_compute; reflexivity).
  eexists. split.
  - exact (X12_service_failure_keeps_earlier_effects
             collect_map_names_spec
             (aggregate_raster_maps_spec fails_on_single)
             o "user" sp new_sp [window "w1" 0 20] (window "w2" 20 30)
             [window "w3" 40 50] 0 s 1 s1 Hfirst Htruth Hfail).
  - split; vm_compute; reflexivity.
Defined.

(** The same failure in a whole run: the output is left with the map of
    the first interval, without update and without the closing of the
    connection by [main]. *)
Example failed_run_keeps_first_map :
  ∃ s',
    main_spec fails_on_single (opts [Overlap]) false "user"
      (start_state (catalog split_windows))
    = Fatal AggregationComputeError s'
    ∧ stored_maps (db s') (strds, "out@user") = [window "base_1" 0 20]
    ∧ temporal_extent <$> db s' !! (strds, "out@user") = Some None
    ∧ request_counts (log s') = [1; 2]
    ∧ (is_close <$> log s') = [false; false; false].
Proof. eexists. vm_compute. repeat split. Qed.

(** Ids with and without a mapset. *)
Example qualified_samples :
  qualified "src" "user" = "src@user"
  ∧ qualified "src@other" "user" = "src@other"
  ∧ qualified "" "user" = "@user"
  ∧ find "src" "@"%char = -1
  ∧ find "a@b@c" "@"%char = 1.
Proof. repeat split. Qed.

Lemma spec_service_frame (r_series : string → list string → option bool)
    (rq : AggregationRequest) (c c' : gmap (stds_type * string) Dataset) :
  aggregate_raster_maps_spec r_series rq c = Some c' →
  ∀ j, j ≠ stds_key (rq_dataset rq) → c' !! j = c !! j.
Proof.
  unfold aggregate_raster_maps_spec. intros H j Hj.
  destruct (r_series _ _) as [only_null|]; [|done].
  destruct (only_null && negb (rq_register_null rq)).
  - by injection H as <-.
  - injection H as <-. by rewrite lookup_alter_ne.
Qed.

(** The input and the sampler after a completed run. *)
Lemma X13_witness_input_and_sampler_kept :
  let o := opts [Overlap] in
  let s := start_state (catalog two_windows) in
  let s' := final_state (main_spec computes o false "user" s) in
  db s' !! (strds, "src@user") = db s !! (strds, "src@user")
  ∧ db s' !! (strds, "smp@user") = db s !! (strds, "smp@user")
  ∧ db s' !! (strds, "out@user") ≠ db s !! (strds, "out@user").
Proof.
  intros o s s'. split; [|split].
  - apply (X13_other_datasets_untouched
             collect_map_names_spec (aggregate_raster_maps_spec computes)
             o false "user" s (strds, "src@user")
             (spec_service_frame computes)).
    discriminate.
  - apply (X13_other_datasets_untouched
             collect_map_names_spec (aggregate_raster_maps_spec computes)
             o false "user" s (strds, "smp@user")
             (spec_service_frame computes)).
    discriminate.
  - vm_compute. discriminate.
Defined.
